(** * A file-backed key-value store with TTL expiry: kv_store.py

    Shallow embedding of the class [KeyValueStore] of [kv_store.py] and the
    properties of its public operations [create], [read], [delete] and
    [batch_create].

    Modelling choices.
    - A Python [dict] is an insertion-ordered table with unique keys: it is
      embedded as an association list ([dict]), new keys are appended at the
      end, and [dict_wf] is the uniqueness of keys.
    - The engine object together with its backing file is one record
      ([world]); the methods are computations in a state-and-exception monad
      in which a raised exception keeps every mutation made before it, as in
      Python.
    - [time.time()] is the parameter [now] of a call: one reading of the
      clock per public call.  Timestamps and TTLs are integers ([Z]).
    - [json.dumps], [json.dump]/[json.load] and [os.path.getsize] belong to
      the Python library.  The backing file is modelled by the object whose
      JSON text it holds, the one [json.dump] was given; [json.load] does not
      give that object back but its image under [loads_dumps], in which
      tuples have become lists and the keys of dictionaries strings.  That
      image, the length of the text that [json.dumps] gives a value and the
      size of the file on disk are the three fields of the class
      [Serializer], of which the development is parametric. *)

From Stdlib Require Import String Ascii List ZArith Lia Bool Arith DecimalString.
Import ListNotations.
Local Open Scope list_scope.

Set Implicit Arguments.

(** ** Python dictionaries *)

Module Dict.

Definition dict (V : Type) : Type := list (string * V).

Section Ops.
Context {V : Type}.

(** [list(d)]: the keys in insertion order. *)
Definition keys (d : dict V) : list string := map fst d.

(** [d.get(k)]. *)
Fixpoint dict_get (k : string) (d : dict V) : option V :=
  match d with
  | [] => None
  | (k', v) :: r => if String.eqb k k' then Some v else dict_get k r
  end.

(** [k in d]. *)
Definition dict_mem (k : string) (d : dict V) : bool :=
  match dict_get k d with Some _ => true | None => false end.

(** [d[k] = v]: an existing key keeps its place, a new one goes last. *)
Fixpoint dict_set (k : string) (v : V) (d : dict V) : dict V :=
  match d with
  | [] => [(k, v)]
  | (k', v') :: r =>
      if String.eqb k k' then (k', v) :: r else (k', v') :: dict_set k v r
  end.

(** The table left by [del d[k]] when [k] is present. *)
Definition dict_remove (k : string) (d : dict V) : dict V :=
  filter (fun kv => negb (String.eqb k (fst kv))) d.

(** [del d[k]]: [None] stands for the [KeyError] of an absent key. *)
Definition dict_del (k : string) (d : dict V) : option (dict V) :=
  if dict_mem k d then Some (dict_remove k d) else None.

(** Keys are unique. *)
Definition dict_wf (d : dict V) : Prop := NoDup (keys d).

End Ops.

(** [{k: f(v) for k, v in d.items()}]. *)
Definition dict_map {V W : Type} (f : V -> W) (d : dict V) : dict W :=
  map (fun kv => (fst kv, f (snd kv))) d.

(** [dict(pairs)]: a later pair with the key of an earlier one replaces its
    value where it stands. *)
Definition dict_of_pairs {V : Type} (pairs : list (string * V)) : dict V :=
  fold_left (fun d kv => dict_set (fst kv) (snd kv) d) pairs [].
End Dict.
Import Dict.

(** ** Exceptions and the state-and-exception monad *)

(** The exceptions the engine raises, one constructor per [raise] of the
    source, named after the Python class.  In the words of the
    specification: the three [ValueError]s are InvalidArgument,
    [KeyError_exists] is AlreadyExists, [KeyError_not_found] is NotFound,
    [MemoryError_file_size] is CapacityExceeded and [JSONDecodeError] is
    CorruptState.  [KeyError_del k] is the bare [KeyError] of a [del] on a
    dictionary that lacks [k], and [AttributeError] the one of [data.get]
    when the file holds JSON that is no object. *)
Inductive exn : Type :=
| ValueError_key_length
| ValueError_value_size
| ValueError_batch_size
| KeyError_exists
| KeyError_not_found
| KeyError_del (k : string)
| MemoryError_file_size
| JSONDecodeError
| FileNotFoundError
| AttributeError.

Inductive result (A : Type) : Type :=
| Ok (a : A)
| Raise (e : exn).
Arguments Ok {A} a.
Arguments Raise {A} e.

(** The content of the backing file: text that is no JSON at all; JSON text
    that is no object (a list, a number, ...); or the JSON text of an object
    whose fields ['store'] and ['ttl_store'], each of which may be missing,
    are the dictionaries [st] and [ts].  [Json (Some st) (Some ts)] is what
    [json.dump({'store': st, 'ttl_store': ts}, file)] leaves. *)
Inductive file_content (value : Type) : Type :=
| Garbage (text : string)
| NonObject (text : string)
| Json (st : option (dict value)) (ts : option (dict Z)).
Arguments Garbage {value} text.
Arguments NonObject {value} text.
Arguments Json {value} st ts.

(** What the Python library computes on values and files. *)
Class Serializer (value : Type) : Type := {
  (** [len(json.dumps(v))] *)
  dumps_len : value -> nat;
  (** [os.path.getsize(file_path)] of a file with this content *)
  getsize : file_content value -> N;
  (** [json.loads(json.dumps(v))] *)
  loads_dumps : value -> value
}.

Section Engine.

Context {value : Type} {ser : Serializer value}.

(** The fields of a [KeyValueStore] object and its backing file
    ([file = None]: no file at [file_path]). *)
Record world : Type := mkWorld {
  max_file_size : N;
  store : dict value;
  ttl_store : dict Z;
  file : option (file_content value)
}.

Definition with_store (d : dict value) (w : world) : world :=
  mkWorld (max_file_size w) d (ttl_store w) (file w).
Definition with_ttl_store (d : dict Z) (w : world) : world :=
  mkWorld (max_file_size w) (store w) d (file w).
Definition with_file (f : option (file_content value)) (w : world) : world :=
  mkWorld (max_file_size w) (store w) (ttl_store w) f.

Definition M (A : Type) : Type := world -> result A * world.

Definition ret {A} (a : A) : M A := fun w => (Ok a, w).
Definition raise {A} (e : exn) : M A := fun w => (Raise e, w).
Definition bind {A B} (c : M A) (k : A -> M B) : M B :=
  fun w =>
    match c w with
    | (Ok a, w1) => k a w1
    | (Raise e, w1) => (Raise e, w1)
    end.
Definition get_world : M world := fun w => (Ok w, w).
Definition modify (f : world -> world) : M unit := fun w => (Ok tt, f w).

Notation "x <- c ;; k" := (bind c (fun x => k))
  (at level 61, c at next level, right associativity).
Notation "c ;; k" := (bind c (fun _ => k))
  (at level 61, right associativity).

(** [for x in l: body x]. *)
Fixpoint for_each {A} (l : list A) (body : A -> M unit) : M unit :=
  match l with
  | [] => ret tt
  | x :: r => body x ;; for_each r body
  end.

(** ** The methods of [KeyValueStore] *)

(** The file that holds the text of
    [{'store': self.store, 'ttl_store': self.ttl_store}]. *)
Definition snapshot (w : world) : file_content value :=
  Json (Some (store w)) (Some (ttl_store w)).

(** [json.dump] writes the text of the two mappings; the file is recorded
    as the object written, and what a parse of its text gives is computed
    where the text is parsed, in [_load_store]. *)
Definition _save_store : M unit :=
  modify (fun w => with_file (Some (snapshot w)) w).

(** [json.load] parses the text: every value of ['store'] comes back as its
    image under [loads_dumps]; the expiries are numbers and come back as
    they are.  Text that is no JSON makes [json.load] raise, and JSON that
    is no object makes [data.get] raise, before any assignment. *)
Definition _load_store : M unit :=
  w <- get_world ;;
  match file w with
  | None => raise FileNotFoundError
  | Some (Garbage _) => raise JSONDecodeError
  | Some (NonObject _) => raise AttributeError
  | Some (Json st ts) =>
      modify (with_store
                (dict_map loads_dumps
                   (match st with Some d => d | None => [] end))) ;;
      modify (with_ttl_store (match ts with Some d => d | None => [] end))
  end.

(** [KeyValueStore(file_path, max_file_size)], where [f] is what lies at
    [file_path]. *)
Definition __init__ (f : option (file_content value)) (max_size : N)
  : result unit * world :=
  let w := mkWorld max_size [] [] f in
  match f with
  | Some _ => _load_store w
  | None => _save_store w
  end.

Definition _check_file_size : M unit :=
  w <- get_world ;;
  match file w with
  | Some c =>
      if (max_file_size w <? getsize c)%N then raise MemoryError_file_size
      else ret tt
  | None => ret tt
  end.

Definition _is_key_expired (now : Z) (key : string) (w : world) : bool :=
  match dict_get key (ttl_store w) with
  | Some expiry => (expiry <? now)%Z
  | None => false
  end.

(** [del self.store[key]] and [del self.ttl_store[key]]. *)
Definition del_store (key : string) : M unit :=
  w <- get_world ;;
  match dict_del key (store w) with
  | Some d => modify (with_store d)
  | None => raise (KeyError_del key)
  end.

Definition del_ttl_store (key : string) : M unit :=
  w <- get_world ;;
  match dict_del key (ttl_store w) with
  | Some d => modify (with_ttl_store d)
  | None => raise (KeyError_del key)
  end.

Definition expired_keys (now : Z) (w : world) : list string :=
  filter (fun key => _is_key_expired now key w) (keys (ttl_store w)).

Definition _clean_expired_keys (now : Z) : M unit :=
  w <- get_world ;;
  for_each (expired_keys now w)
    (fun key => del_store key ;; del_ttl_store key) ;;
  _save_store.

(** [if ttl:] is false for [None] and for [0]. *)
Definition truthy (ttl : option Z) : bool :=
  match ttl with
  | Some t => negb (t =? 0)%Z
  | None => false
  end.

Definition ttl_seconds (ttl : option Z) : Z :=
  match ttl with Some t => t | None => 0%Z end.

(** [self.store[key] = value] followed by the [if ttl:] statement.  The sum
    is exact, in [Z]; Python's is a sum of floats, to which an integer TTL
    is first converted, with an OverflowError beyond the range of floats:
    see [ttl_convertible]. *)
Definition insert_entry (key : string) (v : value) (ttl : option Z)
  (now : Z) : M unit :=
  modify (fun w => with_store (dict_set key v (store w)) w) ;;
  if truthy ttl then
    modify (fun w =>
      with_ttl_store (dict_set key (now + ttl_seconds ttl)%Z (ttl_store w)) w)
  else ret tt.

(** The body of [create] under [with self.lock:], after the sweep. *)
Definition create_locked (key : string) (v : value) (ttl : option Z)
  (now : Z) : M unit :=
  w <- get_world ;;
  if dict_mem key (store w) then raise KeyError_exists
  else
    insert_entry key v ttl now ;;
    _save_store ;;
    _check_file_size.

Definition create (key : string) (v : value) (ttl : option Z) (now : Z)
  : M unit :=
  if 32 <? String.length key then raise ValueError_key_length
  else if 16 * 1024 <? dumps_len v then raise ValueError_value_size
  else
    _clean_expired_keys now ;;
    create_locked key v ttl now.

Definition read_locked (key : string) : M value :=
  w <- get_world ;;
  match dict_get key (store w) with
  | None => raise KeyError_not_found
  | Some v => ret v
  end.

Definition read (key : string) (now : Z) : M value :=
  _clean_expired_keys now ;;
  read_locked key.

Definition delete_locked (key : string) : M unit :=
  w <- get_world ;;
  if negb (dict_mem key (store w)) then raise KeyError_not_found
  else
    del_store key ;;
    (w' <- get_world ;;
     if dict_mem key (ttl_store w') then del_ttl_store key else ret tt) ;;
    _save_store.

Definition delete (key : string) (now : Z) : M unit :=
  _clean_expired_keys now ;;
  delete_locked key.

(** One turn of the loop [for key, value in items.items():]. *)
Definition batch_item (ttl : option Z) (now : Z) (kv : string * value)
  : M unit :=
  let (key, v) := kv in
  if 32 <? String.length key then raise ValueError_key_length
  else if 16 * 1024 <? dumps_len v then raise ValueError_value_size
  else
    w <- get_world ;;
    if dict_mem key (store w) then raise KeyError_exists
    else insert_entry key v ttl now.

Definition batch_locked (items : dict value) (ttl : option Z) (now : Z)
  : M unit :=
  for_each items (batch_item ttl now) ;;
  _save_store ;;
  _check_file_size.

Definition batch_create (items : dict value) (ttl : option Z) (now : Z)
  : M unit :=
  if 100 <? List.length items then raise ValueError_batch_size
  else
    _clean_expired_keys now ;;
    batch_locked items ttl now.

End Engine.

Arguments world value : clear implicits.
Arguments M value A : clear implicits.

(** ** State predicates *)

Section Predicates.

Context {value : Type}.

(** The invariant of the data model: a key with an expiry has a value. *)
Definition ttl_subset (w : world value) : Prop :=
  forall k, In k (keys (ttl_store w)) -> In k (keys (store w)).

(** Both dictionaries are dictionaries and the invariant holds. *)
Definition store_ok (w : world value) : Prop :=
  dict_wf (store w) /\ dict_wf (ttl_store w) /\ ttl_subset w.

(** The same, as a test that runs. *)
Fixpoint distinct (l : list string) : bool :=
  match l with
  | [] => true
  | k :: r => negb (existsb (String.eqb k) r) && distinct r
  end.

Definition store_okb (w : world value) : bool :=
  distinct (keys (store w)) && distinct (keys (ttl_store w)) &&
  forallb (fun k => dict_mem k (store w)) (keys (ttl_store w)).

(** Two worlds hold the same two mappings. *)
Definition same_maps (w w' : world value) : Prop :=
  store w = store w' /\ ttl_store w = ttl_store w'.

(** The outcome of a computation depends on the two mappings only. *)
Definition respects {A} (c : M value A) : Prop :=
  forall w w', same_maps w w' ->
    fst (c w) = fst (c w') /\ same_maps (snd (c w)) (snd (c w')).

(** A predicate that looks at the two mappings only. *)
Definition on_maps (P : world value -> Prop) : Prop :=
  forall w w', same_maps w w' -> P w -> P w'.

(** No key of the value mapping is longer than 32 characters. *)
Definition keys_bounded (w : world value) : Prop :=
  forall k, In k (keys (store w)) -> String.length k <= 32.

(** The backing file holds exactly the two mappings in memory. *)
Definition file_synced (w : world value) : Prop :=
  file w = Some (snapshot w).

(** A computation keeps a state predicate, whether it returns or raises. *)
Definition preserves {A} (P : world value -> Prop) (c : M value A) : Prop :=
  forall w, P w -> P (snd (c w)).

(** The table left when the keys of [l] are deleted one after the other. *)
Definition remove_all {V} (l : list string) (d : dict V) : dict V :=
  fold_left (fun d k => dict_remove k d) l d.

(** The world a successful sweep at [now] leaves: the expired keys are gone
    from both mappings and the result is saved. *)
Definition swept (now : Z) (w : world value) : world value :=
  let l := expired_keys now w in
  let st := remove_all l (store w) in
  let ts := remove_all l (ttl_store w) in
  mkWorld (max_file_size w) st ts (Some (Json (Some st) (Some ts))).

(** The world after the insertion of an entry and the save that follows. *)
Definition created (key : string) (v : value) (ttl : option Z) (now : Z)
  (w : world value) : world value :=
  let st := dict_set key v (store w) in
  let ts := if truthy ttl
            then dict_set key (now + ttl_seconds ttl)%Z (ttl_store w)
            else ttl_store w in
  mkWorld (max_file_size w) st ts (Some (Json (Some st) (Some ts))).

(** The key has the value [v0] and the expiry [o], if any, and is not
    expired at any instant up to [t]. *)
Definition key_live (key : string) (v0 : value) (o : option Z) (t : Z)
  (w : world value) : Prop :=
  dict_get key (store w) = Some v0 /\
  dict_get key (ttl_store w) = o /\
  forall e, o = Some e -> (t <= e)%Z.

(** The world after the deletion of an entry and the save that follows. *)
Definition deleted (key : string) (w : world value) : world value :=
  let st := dict_remove key (store w) in
  let ts := dict_remove key (ttl_store w) in
  mkWorld (max_file_size w) st ts (Some (Json (Some st) (Some ts))).

(** The world after the insertion of an entry, before any save. *)
Definition inserted (key : string) (v : value) (ttl : option Z) (now : Z)
  (w : world value) : world value :=
  mkWorld (max_file_size w) (dict_set key v (store w))
    (if truthy ttl
     then dict_set key (now + ttl_seconds ttl)%Z (ttl_store w)
     else ttl_store w)
    (file w).

(** The entry [(key, v)] created at [now] with [ttl] is in memory. *)
Definition entry_applied (ttl : option Z) (now : Z) (key : string) (v : value)
  (w : world value) : Prop :=
  dict_get key (store w) = Some v /\
  (truthy ttl = true ->
   dict_get key (ttl_store w) = Some (now + ttl_seconds ttl)%Z).

(** An integer TTL that the conversion to a float accepts (all those below
    2^1023 in absolute value are), so that line 79 or 137 does not raise. *)
Definition ttl_convertible (ttl : option Z) : Prop :=
  (Z.abs (ttl_seconds ttl) < 2 ^ 1023)%Z.

(** The result [r] with the value it returns, if any, replaced by [g]. *)
Definition result_map {A} (g : A -> A) (r : result A) : result A :=
  match r with
  | Ok a => Ok (g a)
  | Raise e => Raise e
  end.

(** The exceptions of the Python class [KeyError]. *)
Definition is_KeyError (e : exn) : Prop :=
  match e with
  | KeyError_exists | KeyError_not_found | KeyError_del _ => True
  | _ => False
  end.

(** The errors of one item of a batch. *)
Definition item_error (e : exn) : Prop :=
  e = ValueError_key_length \/ e = ValueError_value_size \/ e = KeyError_exists.

(** An item of a batch passes the two size checks of the loop. *)
Definition item_fits {ser : Serializer value} (kv : string * value) : Prop :=
  String.length (fst kv) <= 32 /\ dumps_len (snd kv) <= 16 * 1024.

End Predicates.

(** ** What a restart gives back *)

Section JsonImage.

Context {value : Type} {ser : Serializer value}.

(** A value that JSON gives back as it is. *)
Definition json_document (v : value) : Prop := loads_dumps v = v.

(** The world [w2] holds what [json.load] makes of the mappings of [w]: the
    same keys in the same order, each value replaced by its image, and the
    same expiries. *)
Definition json_image (w2 w : world value) : Prop :=
  store w2 = dict_map loads_dumps (store w) /\
  ttl_store w2 = ttl_store w.

(** A computation does on the image of a world the image of what it does on
    the world; [g] is what becomes of the value it returns. *)
Definition simulates {A} (g : A -> A) (c : M value A) : Prop :=
  forall w2 w, json_image w2 w ->
    fst (c w2) = result_map g (fst (c w)) /\
    json_image (snd (c w2)) (snd (c w)).

End JsonImage.

(** ** A concrete serializer: the values of [json.dumps]

    The Python values that [json.dumps] accepts, floating-point numbers
    apart: [None], booleans, integers, strings, lists, tuples and
    dictionaries whose keys are strings, integers, booleans or [None].  With
    them the text [json.dumps] prints with its default settings (separators
    [", "] and [": "], every character outside the printable ASCII range,
    the quote and the backslash escaped, a tuple printed as a list, a key
    that is no string printed as the string of its text) and the value
    [json.loads] makes of that text. *)

Module PyJson.

#[local] Set Warnings "-register-all".

(** The keys of a dictionary that [json.dumps] accepts. *)
Inductive pykey : Type :=
| KStr (s : string)
| KInt (n : Z)
| KBool (b : bool)
| KNone.

Inductive json : Type :=
| JNull
| JBool (b : bool)
| JInt (n : Z)
| JStr (s : string)
| JList (l : list json)
| JTuple (l : list json)
| JDict (d : list (pykey * json)).

Definition quote_char : ascii := ascii_of_nat 34.
Definition backslash : ascii := ascii_of_nat 92.

Definition chr (c : ascii) : string := String c EmptyString.

Definition hex_digit (n : nat) : ascii :=
  if n <? 10 then ascii_of_nat (48 + n) else ascii_of_nat (87 + n).

(** The escape of one character, as [py_encode_basestring_ascii] does it. *)
Definition escape_char (c : ascii) : string :=
  let n := nat_of_ascii c in
  if n =? 34 then String backslash (chr quote_char)
  else if n =? 92 then String backslash (chr backslash)
  else if n =? 10 then String backslash (chr "n")
  else if n =? 13 then String backslash (chr "r")
  else if n =? 9 then String backslash (chr "t")
  else if n =? 12 then String backslash (chr "f")
  else if n =? 8 then String backslash (chr "b")
  else if (32 <=? n) && (n <=? 126) then chr c
  else String backslash (String "u" (String "0" (String "0"
         (String (hex_digit (n / 16)) (chr (hex_digit (n mod 16))))))).

Fixpoint escape (s : string) : string :=
  match s with
  | EmptyString => EmptyString
  | String c r => (escape_char c ++ escape r)%string
  end.

Definition quoted (s : string) : string :=
  String quote_char (escape s ++ chr quote_char)%string.

Definition join_comma (l : list string) : string :=
  String.concat ", "%string l.

(** The name under which a key is printed. *)
Definition key_text (k : pykey) : string :=
  match k with
  | KStr s => s
  | KInt n => DecimalString.NilZero.string_of_int (Z.to_int n)
  | KBool true => "true"%string
  | KBool false => "false"%string
  | KNone => "null"%string
  end.

Fixpoint dumps (j : json) : string :=
  match j with
  | JNull => "null"%string
  | JBool true => "true"%string
  | JBool false => "false"%string
  | JInt n => DecimalString.NilZero.string_of_int (Z.to_int n)
  | JStr s => quoted s
  | JList l => ("[" ++ join_comma (map dumps l) ++ "]")%string
  | JTuple l => ("[" ++ join_comma (map dumps l) ++ "]")%string
  | JDict d =>
      ("{" ++ join_comma
         (map (fun kv =>
                 (quoted (key_text (fst kv)) ++ ": " ++ dumps (snd kv))%string)
            d)
       ++ "}")%string
  end.

(** A dictionary with string keys, as a value. *)
Definition object_of (d : dict json) : json :=
  JDict (map (fun kv => (KStr (fst kv), snd kv)) d).

(** [json.loads(json.dumps(j))]: a tuple comes back as a list, and a
    dictionary with its keys turned into the strings of their names, two
    keys of the same name merged as [dict] merges them. *)
Fixpoint loads (j : json) : json :=
  match j with
  | JNull => JNull
  | JBool b => JBool b
  | JInt n => JInt n
  | JStr s => JStr s
  | JList l => JList (map loads l)
  | JTuple l => JList (map loads l)
  | JDict d =>
      object_of
        (dict_of_pairs (map (fun kv => (key_text (fst kv), loads (snd kv))) d))
  end.

(** JSON proper: no tuple, and dictionaries whose keys are strings, all
    different. *)
Definition is_KStr (k : pykey) : bool :=
  match k with KStr _ => true | _ => false end.

Fixpoint plain (j : json) : bool :=
  match j with
  | JNull | JBool _ | JInt _ | JStr _ => true
  | JList l => forallb plain l
  | JTuple _ => false
  | JDict d =>
      forallb (fun kv => is_KStr (fst kv) && plain (snd kv)) d &&
      distinct (map (fun kv => key_text (fst kv)) d)
  end.

(** The document that [_save_store] hands to [json.dump], or the fields a
    hand-written file holds. *)
Definition document (st : option (dict json)) (ts : option (dict Z)) : json :=
  JDict
    ((match st with
      | Some d => [(KStr "store"%string, object_of d)]
      | None => []
      end) ++
     (match ts with
      | Some d =>
          [(KStr "ttl_store"%string,
            object_of (map (fun kt => (fst kt, JInt (snd kt))) d))]
      | None => []
      end)).

#[export] Instance json_serializer : Serializer json := {
  dumps_len v := String.length (dumps v);
  getsize c :=
    match c with
    | Garbage text => N.of_nat (String.length text)
    | NonObject text => N.of_nat (String.length text)
    | Json st ts => N.of_nat (String.length (dumps (document st ts)))
    end;
  loads_dumps := loads
}.

(** A store that has never been used, with the default limit of 1 GiB. *)
Definition fresh : world json :=
  snd (__init__ None (1 * 1024 * 1024 * 1024)%N).

(** The value [{'name': 'Ram'}] of the client script. *)
Definition ram : json := JDict [(KStr "name"%string, JStr "Ram"%string)].

(** A string of [n] letters [a]. *)
Fixpoint letters (n : nat) : string :=
  match n with
  | O => EmptyString
  | S m => String "a"%char (letters m)
  end.

(** A batch of [n] one-character keys, all different, each with [null]. *)
Definition batch_of (n : nat) : dict json :=
  map (fun i => (chr (ascii_of_nat (48 + i)), JNull)) (seq 0 n).

(** The store after [create('old', {'name': 'Ram'}, ttl=5)] at instant 0:
    the entry expires at 5. *)
Definition stale : world json :=
  snd (create "old"%string ram (Some 5%Z) 0%Z fresh).

(** The store after [create('key1', {'name': 'Ram'})] at instant 0. *)
Definition with_key1 : world json :=
  snd (create "key1"%string ram None 0%Z fresh).

(** The stores after [create('key1', {'name': 'Ram'}, ttl)] at instant 10,
    for [ttl=5] and for [ttl=0]. *)
Definition with_ttl5 : world json :=
  snd (create "key1"%string ram (Some 5%Z) 10%Z fresh).
Definition with_ttl0 : world json :=
  snd (create "key1"%string ram (Some 0%Z) 10%Z fresh).

(** The store after [create('k', (1, 2))] at instant 0, and after
    [create('k', {1: 'x'})]. *)
Definition with_tuple : world json :=
  snd (create "k"%string (JTuple [JInt 1; JInt 2]) None 0%Z fresh).
Definition with_int_key : world json :=
  snd (create "k"%string (JDict [(KInt 1, JStr "x"%string)]) None 0%Z fresh).

(** A store that has never been used, with a limit of 10 bytes. *)
Definition tiny : world json := snd (__init__ None 10%N).

(** The batch of the client script, and one whose second key exists in
    [with_key1]. *)
Definition cities : dict json :=
  [("key2"%string, JDict [(KStr "city"%string, JStr "Bengalore"%string)]);
   ("key3"%string, JDict [(KStr "city"%string, JStr "Hydrabad"%string)])].
Definition clashing : dict json :=
  [("key2"%string, JDict [(KStr "city"%string, JStr "Bengalore"%string)]);
   ("key1"%string, JNull);
   ("key3"%string, JDict [(KStr "city"%string, JStr "Hydrabad"%string)])].

(** *** The client script: client.py *)

(** The lines the script prints: the three fixed messages, the message that
    shows a value read, and [print(e)] of a caught KeyError. *)
Inductive line : Type :=
| Created (key : string)
| ReadLine (key : string) (v : json)
| Deleted (key : string)
| BatchCreated
| Printed (e : exn).

(** [except KeyError]. *)
Definition is_KeyErrorb (e : exn) : bool :=
  match e with
  | KeyError_exists | KeyError_not_found | KeyError_del _ => true
  | _ => false
  end.

(** The two values of the batch of the script. *)
Definition bengalore : json := JDict [(KStr "city"%string, JStr "Bengalore"%string)].
Definition hydrabad : json := JDict [(KStr "city"%string, JStr "Hydrabad"%string)].

(** A statement of the script acts on the engine, its file and the lines
    printed so far. *)
Definition script : Type :=
  world json * list line -> result unit * (world json * list line).

(** A call of the engine followed by the [print] that reports it. *)
Definition call {A} (c : M json A) (report : A -> line) : script :=
  fun st =>
    match c (fst st) with
    | (Ok a, w') => (Ok tt, (w', snd st ++ [report a]))
    | (Raise e, w') => (Raise e, (w', snd st))
    end.

(** A call of the engine that nothing reports. *)
Definition quiet {A} (c : M json A) : script :=
  fun st =>
    match c (fst st) with
    | (Ok _, w') => (Ok tt, (w', snd st))
    | (Raise e, w') => (Raise e, (w', snd st))
    end.

(** [try: s  except KeyError as e: print(e)]. *)
Definition try_KeyError (s : script) : script :=
  fun st =>
    match s st with
    | (Raise e, (w', out)) =>
        if is_KeyErrorb e then (Ok tt, (w', out ++ [Printed e]))
        else (Raise e, (w', out))
    | r => r
    end.

Definition then_ (s1 s2 : script) : script :=
  fun st =>
    match s1 st with
    | (Ok _, st') => s2 st'
    | (Raise e, st') => (Raise e, st')
    end.

Section Client.

Context {ser : Serializer json}.

(** [main()], where [f] is what lies at ['kv_store.json'] and [t1] to [t6]
    are the readings of the clock in the six calls of the engine. *)
Definition main (f : option (file_content json)) (t1 t2 t3 t4 t5 t6 : Z)
  : result unit * (world json * list line) :=
  match @__init__ json ser f (1 * 1024 * 1024 * 1024)%N with
  | (Raise e, w) => (Raise e, (w, []))
  | (Ok _, w) =>
      then_ (call (@create json ser "key1"%string ram (Some 10%Z) t1)
               (fun _ => Created "key1"%string))
     (then_ (try_KeyError
               (call (@read json "key1"%string t2) (ReadLine "key1"%string)))
     (then_ (try_KeyError
               (call (@delete json "key1"%string t3)
                  (fun _ => Deleted "key1"%string)))
     (then_ (call (@batch_create json ser
                     [("key2"%string, bengalore); ("key3"%string, hydrabad)]
                     (Some 120%Z) t4)
               (fun _ => BatchCreated))
     (then_ (try_KeyError
               (call (@read json "key2"%string t5) (ReadLine "key2"%string)))
            (try_KeyError (quiet (@delete json "key4"%string t6)))))))
        (w, [])
  end.

(** The two files on which a first run has its size checked: the one
    [create] writes and the one [batch_create] writes. *)
Definition first_run_files (t1 t4 : Z) : list (file_content json) :=
  [Json (Some [("key1"%string, ram)]) (Some [("key1"%string, (t1 + 10)%Z)]);
   Json (Some [("key2"%string, bengalore); ("key3"%string, hydrabad)])
        (Some [("key2"%string, (t4 + 120)%Z); ("key3"%string, (t4 + 120)%Z)])].

(** What a first run prints. *)
Definition first_run_output (t1 t2 t3 t4 t5 : Z) : list line :=
  [Created "key1"%string;
   (if (t1 + 10 <? t2)%Z then Printed KeyError_not_found
    else ReadLine "key1"%string ram);
   (if (t1 + 10 <? t2)%Z || (t1 + 10 <? t3)%Z then Printed KeyError_not_found
    else Deleted "key1"%string);
   BatchCreated;
   (if (t4 + 120 <? t5)%Z then Printed KeyError_not_found
    else ReadLine "key2"%string bengalore);
   Printed KeyError_not_found].

(** The script stopped on an exception, before it printed the line of the
    batch. *)
Definition crashed_before_batch
  (r : result unit * (world json * list line)) : Prop :=
  (exists e, fst r = Raise e) /\ ~ In BatchCreated (snd (snd r)).

End Client.

(** An engine loaded from a hand-written file in which [ghost] has an
    expiry, 5, and no value. *)
Definition orphan : world json :=
  snd (__init__ (Some (Json (Some []) (Some [("ghost"%string, 5%Z)])))
         (1 * 1024 * 1024 * 1024)%N).

(** What a first run of the script, with the clock at 0, 1, ..., 5, leaves
    at ['kv_store.json']. *)
Definition after_first_run : option (file_content json) :=
  file (fst (snd (main None 0 1 2 3 4 5))).

End PyJson.

(** * Properties *)

(** Projections of an updated world, without unfolding the dictionaries. *)
Ltac fields :=
  unfold _save_store, with_store, with_ttl_store, with_file, modify, ret, raise;
  cbn [fst snd store ttl_store file max_file_size].

(** ** Dictionaries *)

Section DictFacts.

Context {V : Type}.
Implicit Types (d : dict V) (k : string) (v : V).

Lemma dict_get_In_keys k d v : dict_get k d = Some v -> In k (keys d).
Proof.
  induction d as [|[k' v'] r IH]; simpl; [discriminate|].
  destruct (String.eqb_spec k k') as [->|Hne]; auto.
Qed.

Lemma dict_get_None k d : dict_get k d = None <-> ~ In k (keys d).
Proof.
  induction d as [|[k' v'] r IH]; simpl.
  - tauto.
  - destruct (String.eqb_spec k k') as [->|Hne].
    + split; [discriminate | intros H; exfalso; apply H; now left].
    + rewrite IH. split; [intros H [E|I]; [congruence|auto] | tauto].
Qed.

Lemma dict_mem_In k d : dict_mem k d = true <-> In k (keys d).
Proof.
  unfold dict_mem. destruct (dict_get k d) eqn:E.
  - split; [intros _; eapply dict_get_In_keys; eauto | reflexivity].
  - apply dict_get_None in E. split; [discriminate | tauto].
Qed.

Lemma dict_mem_false k d : dict_mem k d = false <-> ~ In k (keys d).
Proof.
  rewrite <- dict_mem_In. destruct (dict_mem k d); split; congruence.
Qed.

Lemma dict_get_set_eq k v d : dict_get k (dict_set k v d) = Some v.
Proof.
  induction d as [|[k' v'] r IH]; simpl.
  - now rewrite String.eqb_refl.
  - destruct (String.eqb_spec k k') as [->|Hne]; simpl.
    + now rewrite String.eqb_refl.
    + destruct (String.eqb_spec k k'); [contradiction|exact IH].
Qed.

Lemma dict_get_set_ne k k' v d :
  k <> k' -> dict_get k' (dict_set k v d) = dict_get k' d.
Proof.
  intros Hne. induction d as [|[k0 v0] r IH]; simpl.
  - destruct (String.eqb_spec k' k); congruence.
  - destruct (String.eqb_spec k k0) as [->|Hk]; simpl.
    + destruct (String.eqb_spec k' k0); congruence.
    + destruct (String.eqb_spec k' k0); auto.
Qed.

Lemma keys_set k v d :
  forall k', In k' (keys (dict_set k v d)) <-> k' = k \/ In k' (keys d).
Proof.
  induction d as [|[k0 v0] r IH]; simpl; intros k'.
  - intuition.
  - destruct (String.eqb_spec k k0) as [->|Hk]; simpl.
    + intuition.
    + rewrite IH. intuition.
Qed.

Lemma keys_set_fresh k v d :
  ~ In k (keys d) -> keys (dict_set k v d) = keys d ++ [k].
Proof.
  induction d as [|[k0 v0] r IH]; simpl; intros Hn; [reflexivity|].
  destruct (String.eqb_spec k k0) as [->|Hk]; [tauto|].
  simpl. f_equal. apply IH. tauto.
Qed.

Lemma keys_set_present k v d :
  In k (keys d) -> keys (dict_set k v d) = keys d.
Proof.
  induction d as [|[k0 v0] r IH]; simpl; intros Hin; [contradiction|].
  destruct (String.eqb_spec k k0) as [->|Hk]; [reflexivity|].
  simpl. f_equal. apply IH. destruct Hin; congruence.
Qed.

Lemma dict_set_wf k v d : dict_wf d -> dict_wf (dict_set k v d).
Proof.
  unfold dict_wf. intros Hwf.
  destruct (in_dec string_dec k (keys d)) as [Hin|Hn].
  - now rewrite keys_set_present.
  - rewrite keys_set_fresh by assumption.
    apply NoDup_app; [assumption | constructor; [tauto|constructor] |].
    intros x Hx [<-|[]]. contradiction.
Qed.

Lemma keys_remove k d :
  forall k', In k' (keys (dict_remove k d)) <-> k' <> k /\ In k' (keys d).
Proof.
  induction d as [|[k0 v0] r IH]; simpl; intros k'.
  - tauto.
  - destruct (String.eqb_spec k k0) as [->|Hk]; simpl.
    + rewrite IH. intuition congruence.
    + rewrite IH. intuition congruence.
Qed.

Lemma dict_get_remove_eq k d : dict_get k (dict_remove k d) = None.
Proof.
  apply dict_get_None. rewrite keys_remove. tauto.
Qed.

Lemma dict_get_remove_ne k k' d :
  k <> k' -> dict_get k' (dict_remove k d) = dict_get k' d.
Proof.
  intros Hne. induction d as [|[k0 v0] r IH]; simpl; [reflexivity|].
  destruct (String.eqb_spec k k0) as [->|Hk]; simpl.
  - destruct (String.eqb_spec k' k0); congruence.
  - destruct (String.eqb_spec k' k0); auto.
Qed.

Lemma dict_remove_wf k d : dict_wf d -> dict_wf (dict_remove k d).
Proof.
  unfold dict_wf, dict_remove, keys. induction d as [|[k0 v0] r IH]; simpl.
  - trivial.
  - intros Hnd. inversion Hnd as [|? ? Hn Hr]; subst.
    destruct (String.eqb k k0); simpl; auto.
    constructor; auto.
    intros Hin. apply Hn. apply in_map_iff in Hin as [x [E Hx]].
    apply filter_In in Hx. apply in_map_iff. exists x. tauto.
Qed.

Lemma dict_del_Some k d d' :
  dict_del k d = Some d' -> In k (keys d) /\ d' = dict_remove k d.
Proof.
  unfold dict_del. destruct (dict_mem k d) eqn:E; [|discriminate].
  intros [= <-]. split; [now apply dict_mem_In | reflexivity].
Qed.

Lemma dict_del_None k d : dict_del k d = None -> ~ In k (keys d).
Proof.
  unfold dict_del. destruct (dict_mem k d) eqn:E; [discriminate|].
  intros _. now apply dict_mem_false.
Qed.

Lemma dict_del_present k d :
  In k (keys d) -> dict_del k d = Some (dict_remove k d).
Proof.
  intros Hin. unfold dict_del. apply dict_mem_In in Hin. now rewrite Hin.
Qed.

Lemma keys_remove_all (l : list string) d :
  forall k, In k (keys (remove_all l d)) <-> ~ In k l /\ In k (keys d).
Proof.
  unfold remove_all. revert d.
  induction l as [|x l IH]; simpl; intros d k.
  - tauto.
  - rewrite IH, keys_remove. intuition congruence.
Qed.

Lemma dict_get_remove_all (l : list string) d k :
  dict_get k (remove_all l d) = if in_dec string_dec k l then None else dict_get k d.
Proof.
  unfold remove_all. revert d.
  induction l as [|x l IH]; simpl; intros d; [reflexivity|].
  rewrite IH. destruct (in_dec string_dec k l) as [Hin|Hn].
  - destruct (string_dec x k); reflexivity.
  - destruct (string_dec x k) as [->|Hne].
    + apply dict_get_remove_eq.
    + now apply dict_get_remove_ne.
Qed.

Lemma remove_all_wf (l : list string) d : dict_wf d -> dict_wf (remove_all l d).
Proof.
  unfold remove_all. revert d.
  induction l as [|x l IH]; simpl; intros d Hwf; [assumption|].
  apply IH. now apply dict_remove_wf.
Qed.

End DictFacts.

(** ** The monad and the private methods *)

Section EngineFacts.

Context {value : Type} {ser : Serializer value}.
Implicit Types (w : world value) (k key : string) (v : value) (now : Z).

Notation "x <- c ;; k" := (bind c (fun x => k))
  (at level 61, c at next level, right associativity).
Notation "c ;; k" := (bind c (fun _ => k))
  (at level 61, right associativity).

Lemma bind_ok {A B} (c : M value A) (f : A -> M value B) w a w1 :
  c w = (Ok a, w1) -> bind c f w = f a w1.
Proof. intros H. unfold bind. now rewrite H. Qed.

Lemma bind_raise {A B} (c : M value A) (f : A -> M value B) w e w1 :
  c w = (Raise e, w1) -> bind c f w = (Raise e, w1).
Proof. intros H. unfold bind. now rewrite H. Qed.

Lemma del_store_present k w :
  In k (keys (store w)) ->
  del_store k w = (Ok tt, with_store (dict_remove k (store w)) w).
Proof.
  intros Hin. unfold del_store, bind, get_world.
  now rewrite (dict_del_present _ _ Hin).
Qed.

Lemma del_store_absent k w :
  ~ In k (keys (store w)) -> del_store k w = (Raise (KeyError_del k), w).
Proof.
  intros Hn. unfold del_store, bind, get_world, dict_del.
  apply dict_mem_false in Hn. now rewrite Hn.
Qed.

Lemma del_ttl_store_present k w :
  In k (keys (ttl_store w)) ->
  del_ttl_store k w = (Ok tt, with_ttl_store (dict_remove k (ttl_store w)) w).
Proof.
  intros Hin. unfold del_ttl_store, bind, get_world.
  now rewrite (dict_del_present _ _ Hin).
Qed.

Lemma del_ttl_store_absent k w :
  ~ In k (keys (ttl_store w)) -> del_ttl_store k w = (Raise (KeyError_del k), w).
Proof.
  intros Hn. unfold del_ttl_store, bind, get_world, dict_del.
  apply dict_mem_false in Hn. now rewrite Hn.
Qed.

(** The loop of the sweep on keys that are all present, each once. *)
Lemma sweep_loop_ok (l : list string) : forall w,
  NoDup l ->
  (forall k, In k l -> In k (keys (store w)) /\ In k (keys (ttl_store w))) ->
  for_each l (fun key => del_store key ;; del_ttl_store key) w =
  (Ok tt, mkWorld (max_file_size w) (remove_all l (store w))
            (remove_all l (ttl_store w)) (file w)).
Proof.
  induction l as [|x l IH]; intros w Hnd Hin.
  - destruct w; reflexivity.
  - inversion Hnd as [|? ? Hx Hl]; subst.
    destruct (Hin x (or_introl eq_refl)) as [Hs Ht].
    cbn [for_each].
    erewrite bind_ok; cycle 1.
    { erewrite bind_ok by (apply del_store_present; exact Hs).
      apply del_ttl_store_present. exact Ht. }
    rewrite IH; [reflexivity | assumption |].
    intros k Hk. unfold with_store, with_ttl_store. cbn [store ttl_store].
    rewrite !keys_remove.
    destruct (Hin k (or_intror Hk)).
    assert (k <> x) by congruence. tauto.
Qed.

Lemma expired_keys_In now w k :
  In k (expired_keys now w) <-> _is_key_expired now k w = true.
Proof.
  unfold expired_keys. rewrite filter_In. split; [tauto|].
  intros H. split; [|assumption].
  unfold _is_key_expired in H.
  destruct (dict_get k (ttl_store w)) eqn:E; [|discriminate].
  eapply dict_get_In_keys; eauto.
Qed.

Lemma expired_keys_ttl now w k :
  In k (expired_keys now w) -> In k (keys (ttl_store w)).
Proof. unfold expired_keys. rewrite filter_In. tauto. Qed.

(** On a well-formed store the sweep cannot raise. *)
Lemma clean_ok now w :
  store_ok w -> _clean_expired_keys now w = (Ok tt, swept now w).
Proof.
  intros (Hs & Ht & Hsub).
  unfold _clean_expired_keys.
  rewrite (bind_ok _ _ w (a:=w) (w1:=w)) by reflexivity.
  erewrite bind_ok; cycle 1.
  { apply sweep_loop_ok.
    - apply NoDup_filter. exact Ht.
    - intros k Hk. apply expired_keys_ttl in Hk. auto. }
  reflexivity.
Qed.

Lemma swept_store_get now w k :
  dict_get k (store (swept now w)) =
  if _is_key_expired now k w then None else dict_get k (store w).
Proof.
  cbn. rewrite dict_get_remove_all.
  destruct (in_dec string_dec k (expired_keys now w)) as [Hin|Hn].
  - apply expired_keys_In in Hin. now rewrite Hin.
  - rewrite expired_keys_In in Hn. now destruct (_is_key_expired now k w).
Qed.

Lemma swept_ttl_get now w k :
  dict_get k (ttl_store (swept now w)) =
  if _is_key_expired now k w then None else dict_get k (ttl_store w).
Proof.
  cbn. rewrite dict_get_remove_all.
  destruct (in_dec string_dec k (expired_keys now w)) as [Hin|Hn].
  - apply expired_keys_In in Hin. now rewrite Hin.
  - rewrite expired_keys_In in Hn. now destruct (_is_key_expired now k w).
Qed.

Lemma swept_ok now w : store_ok w -> store_ok (swept now w).
Proof.
  intros (Hs & Ht & Hsub).
  unfold store_ok, ttl_subset, swept. cbn [store ttl_store]. repeat split.
  - now apply remove_all_wf.
  - now apply remove_all_wf.
  - intros k. rewrite !keys_remove_all. intros [Hn Hk]. auto.
Qed.

Lemma swept_synced now w : file_synced (swept now w).
Proof. reflexivity. Qed.

Lemma created_ok key v ttl now w : store_ok w -> store_ok (created key v ttl now w).
Proof.
  intros (Hs & Ht & Hsub).
  unfold store_ok, ttl_subset, created. cbn [store ttl_store]. repeat split.
  - now apply dict_set_wf.
  - destruct (truthy ttl); [now apply dict_set_wf | assumption].
  - intros k. rewrite keys_set.
    destruct (truthy ttl); [rewrite keys_set|]; intuition.
Qed.

Lemma insert_then_save key v ttl now w :
  (insert_entry key v ttl now ;; _save_store) w = (Ok tt, created key v ttl now w).
Proof.
  unfold insert_entry, created, bind, modify, _save_store, ret.
  destruct (truthy ttl); reflexivity.
Qed.

(** The only exception of the sweep is the bare [KeyError] of a [del]. *)
Lemma sweep_loop_raise (l : list string) : forall w e w1,
  for_each l (fun key => del_store key ;; del_ttl_store key) w = (Raise e, w1) ->
  exists k, e = KeyError_del k.
Proof.
  induction l as [|x l IH]; intros w e w1 H.
  - discriminate.
  - cbn [for_each] in H. unfold bind at 1 in H.
    destruct ((del_store x ;; del_ttl_store x) w) as [[[]|e'] w2] eqn:Hb.
    + eapply IH; eauto.
    + inversion H; subst. unfold bind in Hb.
      destruct (in_dec string_dec x (keys (store w))) as [Hs|Hs].
      * rewrite (del_store_present _ _ Hs) in Hb.
        destruct (in_dec string_dec x (keys (ttl_store (with_store (dict_remove x (store w)) w)))) as [Ht|Ht].
        -- rewrite (del_ttl_store_present _ _ Ht) in Hb. discriminate.
        -- rewrite (del_ttl_store_absent _ _ Ht) in Hb. inversion Hb; eauto.
      * rewrite (del_store_absent _ _ Hs) in Hb. inversion Hb; eauto.
Qed.

Lemma clean_raise now w e w1 :
  _clean_expired_keys now w = (Raise e, w1) -> exists k, e = KeyError_del k.
Proof.
  unfold _clean_expired_keys, bind, get_world. intros H.
  destruct (for_each _ _ w) as [[[]|e'] w2] eqn:Hl.
  - discriminate.
  - inversion H; subst. eapply sweep_loop_raise; eauto.
Qed.

(** A sweep that returns has deleted the expired keys, on any state. *)
Lemma sweep_loop_inv (l : list string) : forall w w1,
  for_each l (fun key => del_store key ;; del_ttl_store key) w = (Ok tt, w1) ->
  w1 = mkWorld (max_file_size w) (remove_all l (store w))
         (remove_all l (ttl_store w)) (file w).
Proof.
  induction l as [|x l IH]; intros w w1 H.
  - injection H as <-. now destruct w.
  - cbn [for_each] in H. unfold bind at 1 in H.
    destruct ((del_store x ;; del_ttl_store x) w) as [[[]|e] w2] eqn:Hb;
      [|discriminate].
    apply IH in H. rewrite H. clear H IH.
    unfold bind in Hb.
    destruct (in_dec string_dec x (keys (store w))) as [Hs|Hs];
      [|rewrite (del_store_absent _ _ Hs) in Hb; discriminate].
    rewrite (del_store_present _ _ Hs) in Hb.
    destruct (in_dec string_dec x
                (keys (ttl_store (with_store (dict_remove x (store w)) w))))
      as [Ht|Ht];
      [|rewrite (del_ttl_store_absent _ _ Ht) in Hb; discriminate].
    rewrite (del_ttl_store_present _ _ Ht) in Hb.
    injection Hb as <-. reflexivity.
Qed.

Lemma clean_Ok_inv now w w1 :
  _clean_expired_keys now w = (Ok tt, w1) -> w1 = swept now w.
Proof.
  unfold _clean_expired_keys, bind, get_world. intros H.
  destruct (for_each _ _ w) as [[[]|e] w2] eqn:Hl; [|discriminate].
  apply sweep_loop_inv in Hl. subst w2. injection H as <-. reflexivity.
Qed.

Lemma filter_none {A} (f : A -> bool) (l : list A) :
  (forall x, In x l -> f x = false) -> filter f l = [].
Proof.
  induction l as [|x l IH]; intros H; [reflexivity|].
  cbn. rewrite (H x (or_introl eq_refl)). apply IH.
  intros y Hy. apply H. now right.
Qed.

(** Nothing is expired at [now] in what the sweep at [now] leaves. *)
Lemma swept_no_expired now w : expired_keys now (swept now w) = [].
Proof.
  unfold expired_keys at 1. apply filter_none. intros k Hk.
  unfold swept in Hk. cbn [ttl_store] in Hk.
  apply keys_remove_all in Hk as [Hn _].
  unfold _is_key_expired, swept. cbn [ttl_store].
  rewrite dict_get_remove_all.
  destruct (in_dec string_dec k (expired_keys now w)); [contradiction|].
  rewrite expired_keys_In in Hn. unfold _is_key_expired in Hn.
  destruct (dict_get k (ttl_store w)); [|reflexivity].
  now destruct (z <? now)%Z.
Qed.

Lemma check_file_size_spec w c :
  file w = Some c ->
  _check_file_size w =
  ((if (max_file_size w <? getsize c)%N
    then Raise MemoryError_file_size else Ok tt), w).
Proof.
  intros Hf. unfold _check_file_size, bind, get_world. rewrite Hf.
  destruct (max_file_size w <? getsize c)%N; reflexivity.
Qed.

(** What [create] has done when it returns or reports the file too large. *)
Lemma create_inv key v ttl now w r w' :
  create key v ttl now w = (r, w') ->
  r = Ok tt \/ r = Raise MemoryError_file_size ->
  String.length key <= 32 /\ dumps_len v <= 16 * 1024 /\
  exists w1,
    _clean_expired_keys now w = (Ok tt, w1) /\
    dict_mem key (store w1) = false /\
    w' = created key v ttl now w1 /\
    r = if (max_file_size w' <? getsize (snapshot w'))%N
        then Raise MemoryError_file_size else Ok tt.
Proof.
  unfold create. intros H Hr.
  destruct (Nat.ltb_spec 32 (String.length key)) as [Hk|Hk].
  { inversion H; subst. destruct Hr; discriminate. }
  destruct (Nat.ltb_spec (16 * 1024) (dumps_len v)) as [Hv|Hv].
  { inversion H; subst. destruct Hr; discriminate. }
  split; [assumption|]. split; [assumption|].
  unfold bind at 1 in H.
  destruct (_clean_expired_keys now w) as [[[]|e] w1] eqn:Hc.
  2:{ inversion H; subst. apply clean_raise in Hc as [k0 ->].
      destruct Hr; discriminate. }
  exists w1. split; [reflexivity|].
  unfold create_locked in H. unfold bind at 1, get_world in H.
  destruct (dict_mem key (store w1)) eqn:Hm.
  { inversion H; subst. destruct Hr; discriminate. }
  split; [reflexivity|].
  change (insert_entry key v ttl now ;; _save_store ;; _check_file_size)
    with (bind (insert_entry key v ttl now) (fun _ => bind _save_store (fun _ => _check_file_size))) in H.
  unfold bind at 1 in H.
  pose proof (insert_then_save key v ttl now w1) as Hi.
  unfold bind in Hi, H.
  destruct (insert_entry key v ttl now w1) as [[[]|e] w2]; [|discriminate].
  destruct (_save_store w2) as [[[]|e] w3]; [|discriminate].
  inversion Hi; subst w3.
  rewrite (check_file_size_spec (created key v ttl now w1) eq_refl) in H.
  injection H as <- <-. auto.
Qed.

End EngineFacts.

(** ** Well-formed stores, reading and restarting *)

Section ReadFacts.

Context {value : Type} {ser : Serializer value}.
Implicit Types (w : world value) (k key : string) (v : value) (now : Z).

Notation "x <- c ;; k" := (bind c (fun x => k))
  (at level 61, c at next level, right associativity).
Notation "c ;; k" := (bind c (fun _ => k))
  (at level 61, right associativity).

Lemma distinct_NoDup (l : list string) : distinct l = true -> NoDup l.
Proof.
  induction l as [|k r IH]; cbn; intros H; constructor.
  - apply andb_true_iff in H as [H _]. apply negb_true_iff in H.
    intros Hin.
    assert (existsb (String.eqb k) r = true) as E; [|congruence].
    apply existsb_exists. exists k. split; [assumption|apply String.eqb_refl].
  - apply IH. now apply andb_true_iff in H as [_ H].
Qed.

Lemma store_okb_sound w : store_okb w = true -> store_ok w.
Proof.
  unfold store_okb, store_ok, dict_wf, ttl_subset.
  rewrite !andb_true_iff, forallb_forall. intros [[Hs Ht] Hsub].
  repeat split; try now apply distinct_NoDup.
  intros k Hk. apply dict_mem_In. auto.
Qed.

(** [read] on a well-formed store: the sweep, then the lookup. *)
Lemma read_spec key now w :
  store_ok w ->
  read key now w =
  (match dict_get key (store (swept now w)) with
   | Some v => Ok v
   | None => Raise KeyError_not_found
   end, swept now w).
Proof.
  intros Hok. unfold read.
  rewrite (bind_ok _ _ _ (clean_ok now Hok)).
  unfold read_locked, bind, get_world.
  destruct (dict_get key (store (swept now w))); reflexivity.
Qed.

Lemma respects_bind {A B} (c : M value A) (f : A -> M value B) :
  respects c -> (forall a, respects (f a)) -> respects (bind c f).
Proof.
  intros Hc Hf w w' HR. unfold bind.
  destruct (Hc w w' HR) as [E R1].
  destruct (c w) as [[a|e] w1], (c w') as [[a'|e'] w1']; cbn in E, R1;
    try discriminate.
  - injection E as <-. now apply Hf.
  - injection E as <-. split; [reflexivity | exact R1].
Qed.

Lemma respects_with_world {A} (f : world value -> M value A) :
  (forall a a', same_maps a a' -> forall w w', same_maps w w' ->
     fst (f a w) = fst (f a' w') /\ same_maps (snd (f a w)) (snd (f a' w'))) ->
  respects (bind get_world f).
Proof. intros H w w' HR. unfold bind, get_world. now apply H. Qed.

Lemma respects_for_each {A} (l : list A) (body : A -> M value unit) :
  (forall x, respects (body x)) -> respects (for_each l body).
Proof.
  intros Hb. induction l as [|x l IH]; cbn [for_each].
  - intros w w' HR. split; [reflexivity | exact HR].
  - apply respects_bind; auto.
Qed.

Lemma respects_del_store key : respects (value:=value) (del_store key).
Proof.
  intros w w' [Hs Ht]. unfold del_store, bind, get_world. rewrite <- Hs.
  destruct (dict_del key (store w)); cbn; repeat split; auto.
Qed.

Lemma respects_del_ttl_store key : respects (value:=value) (del_ttl_store key).
Proof.
  intros w w' [Hs Ht]. unfold del_ttl_store, bind, get_world. rewrite <- Ht.
  destruct (dict_del key (ttl_store w)); cbn; repeat split; auto.
Qed.

Lemma respects_save_store : respects (value:=value) _save_store.
Proof. intros w w' [Hs Ht]. cbn. repeat split; auto. Qed.

Lemma respects_clean now : respects (value:=value) (_clean_expired_keys now).
Proof.
  unfold _clean_expired_keys. apply respects_with_world.
  intros a a' [_ Ha] w w' HR.
  assert (expired_keys now a = expired_keys now a') as ->.
  { unfold expired_keys, _is_key_expired. now rewrite Ha. }
  apply respects_bind; auto using respects_save_store.
  apply respects_for_each. intros x.
  apply respects_bind; auto using respects_del_store, respects_del_ttl_store.
Qed.

Lemma respects_read key now : respects (value:=value) (read key now).
Proof.
  unfold read. apply respects_bind; [apply respects_clean|]. intros _.
  intros w w' [Hs Ht]. unfold read_locked, bind, get_world. rewrite <- Hs.
  destruct (dict_get key (store w)); cbn; repeat split; auto.
Qed.

(** [read] when nothing is expired: the save, then the lookup. *)
Lemma read_nothing_expired key now w :
  expired_keys now w = [] ->
  fst (read key now w) =
  match dict_get key (store w) with
  | Some v => Ok v
  | None => Raise KeyError_not_found
  end.
Proof.
  intros He. unfold read, _clean_expired_keys.
  unfold bind at 1. unfold bind at 1. unfold get_world at 1.
  rewrite He. cbn [for_each]. unfold bind at 1. cbn [ret].
  unfold read_locked, bind, get_world. fields.
  destruct (dict_get key (store w)); reflexivity.
Qed.

(** C1.  When [create(k, v)] (no TTL) returns, a [read(k)] that follows at
    once, the clock still showing the instant of the creation, returns [v],
    whatever the state was; and on a store that satisfies the invariant of
    the data model it returns [v] at whatever instant the clock then
    shows. *)
Theorem create_then_read key v now w w' :
  create key v None now w = (Ok tt, w') ->
  fst (read key now w') = Ok v /\
  (store_ok w -> forall now', fst (read key now' w') = Ok v).
Proof.
  intros Hc.
  destruct (create_inv _ _ _ _ _ Hc (or_introl eq_refl))
    as (_ & _ & w1 & Hsw & Hm & -> & _).
  apply clean_Ok_inv in Hsw. subst w1.
  assert (dict_get key (store (created key v None now (swept now w))) = Some v)
    as Hget by (unfold created; cbn [store]; apply dict_get_set_eq).
  split.
  - rewrite read_nothing_expired; [now rewrite Hget|].
    exact (swept_no_expired now w).
  - intros Hok now'.
    pose proof (swept_ok now Hok) as Hok1.
    rewrite (read_spec _ _ (created_ok key v None now Hok1)). cbn [fst].
    rewrite swept_store_get, Hget.
    assert (_is_key_expired now' key (created key v None now (swept now w))
            = false) as ->; [|reflexivity].
    unfold _is_key_expired, created. cbn [truthy ttl_store].
    apply dict_mem_false in Hm.
    destruct Hok1 as (_ & _ & Hsub).
    destruct (dict_get key (ttl_store (swept now w))) eqn:E; [|reflexivity].
    apply dict_get_In_keys in E. apply Hsub in E. contradiction.
Qed.

Lemma dict_get_map {V W} (f : V -> W) (d : dict V) k :
  dict_get k (dict_map f d) = option_map f (dict_get k d).
Proof.
  induction d as [|[k0 v0] r IH]; cbn; [reflexivity|].
  destruct (String.eqb k k0); [reflexivity | exact IH].
Qed.

Lemma keys_map {V W} (f : V -> W) (d : dict V) : keys (dict_map f d) = keys d.
Proof. unfold keys, dict_map. rewrite map_map. reflexivity. Qed.

Lemma dict_mem_map {V W} (f : V -> W) (d : dict V) k :
  dict_mem k (dict_map f d) = dict_mem k d.
Proof. unfold dict_mem. rewrite dict_get_map. now destruct (dict_get k d). Qed.

Lemma dict_remove_map {V W} (f : V -> W) (d : dict V) k :
  dict_remove k (dict_map f d) = dict_map f (dict_remove k d).
Proof.
  unfold dict_remove, dict_map. induction d as [|[k0 v0] r IH]; cbn;
    [reflexivity|].
  destruct (String.eqb k k0); cbn; [exact IH | now rewrite IH].
Qed.

(** A mapping of JSON documents is its own image. *)
Lemma dict_map_documents (d : dict value) :
  (forall k v, In (k, v) d -> json_document v) -> dict_map loads_dumps d = d.
Proof.
  unfold dict_map. induction d as [|[k0 v0] r IH]; intros H; [reflexivity|].
  cbn. rewrite (H k0 v0 (or_introl eq_refl)). f_equal.
  apply IH. intros k v Hin. apply (H k v). now right.
Qed.

Lemma simulates_bind {A B} (g : A -> A) (h : B -> B)
  (c : M value A) (f : A -> M value B) :
  simulates g c ->
  (forall a, forall w2 w, json_image w2 w ->
     fst (f (g a) w2) = result_map h (fst (f a w)) /\
     json_image (snd (f (g a) w2)) (snd (f a w))) ->
  simulates h (bind c f).
Proof.
  intros Hc Hf w2 w HR. unfold bind.
  destruct (Hc w2 w HR) as [E R1].
  destruct (c w2) as [[a2|e2] w2'], (c w) as [[a|e] w']; cbn in E, R1;
    try discriminate.
  - injection E as ->. now apply Hf.
  - injection E as ->. split; [reflexivity | exact R1].
Qed.

Lemma simulates_for_each {A} (l : list A) (body : A -> M value unit) :
  (forall x, simulates (fun u => u) (body x)) ->
  simulates (fun u => u) (for_each l body).
Proof.
  intros Hb. induction l as [|x l IH]; cbn [for_each].
  - intros w2 w HR. split; [reflexivity | exact HR].
  - apply (simulates_bind (g:=fun u => u)); [apply Hb|].
    intros _. apply IH.
Qed.

Lemma simulates_del_store key : simulates (fun u => u) (del_store key).
Proof.
  intros w2 w [Hs Ht]. unfold del_store, bind, get_world, dict_del.
  rewrite Hs, dict_mem_map.
  destruct (dict_mem key (store w)); cbn; [|now split].
  split; [reflexivity|]. split; [apply dict_remove_map | exact Ht].
Qed.

Lemma simulates_del_ttl_store key : simulates (fun u => u) (del_ttl_store key).
Proof.
  intros w2 w [Hs Ht]. unfold del_ttl_store, bind, get_world, dict_del.
  rewrite Ht.
  destruct (dict_mem key (ttl_store w)); cbn; now split.
Qed.

Lemma simulates_clean now : simulates (fun u => u) (_clean_expired_keys now).
Proof.
  intros w2 w HR.
  assert (expired_keys now w2 = expired_keys now w) as E.
  { destruct HR as [_ Ht]. unfold expired_keys, _is_key_expired.
    now rewrite Ht. }
  set (body := fun key : string =>
                 (del_store key ;; del_ttl_store key : M value unit)).
  assert (simulates (fun u => u)
            (for_each (expired_keys now w) body ;; _save_store)) as H.
  { apply (simulates_bind (g:=fun u => u)).
    - apply simulates_for_each. intros x.
      apply (simulates_bind (g:=fun u => u)); [apply simulates_del_store|].
      intros _. apply simulates_del_ttl_store.
    - intros _ w2' w' HR'. split; [reflexivity | exact HR']. }
  specialize (H w2 w HR).
  change (_clean_expired_keys now w2)
    with ((for_each (expired_keys now w2) body ;; _save_store) w2).
  rewrite E. exact H.
Qed.

(** [read] on the image of a world returns the image of what it returns on
    the world, and raises what it raises there. *)
Lemma simulates_read key now : simulates loads_dumps (read key now).
Proof.
  unfold read. apply (simulates_bind (g:=fun u => u));
    [apply simulates_clean|].
  intros _ w2 w [Hs Ht]. unfold read_locked, bind, get_world.
  rewrite Hs, dict_get_map.
  destruct (dict_get key (store w)); cbn; now split.
Qed.

(** C2, as the code has it.  Saving any state and constructing a new engine
    on the file (with whatever size limit) gives back the same keys in the
    same order and the same expiries, and for each value what JSON makes of
    it, [json.loads(json.dumps(v))]; so every [read] raises after the
    restart what it raised before, and returns the JSON image of what it
    returned.  When every value of the store is a JSON document, one that
    JSON gives back as it is, the two mappings and the outcome of every
    [read] are the same after the restart as before. *)
Theorem restart_json_image w (max_size : N) :
  exists w2,
    __init__ (file (snd (_save_store w))) max_size = (Ok tt, w2) /\
    store w2 = dict_map loads_dumps (store w) /\
    ttl_store w2 = ttl_store w /\
    file w2 = Some (snapshot w) /\
    (forall key now,
       fst (read key now w2) = result_map loads_dumps (fst (read key now w))) /\
    ((forall k v, In (k, v) (store w) -> json_document v) ->
     store w2 = store w /\
     forall key now, fst (read key now w2) = fst (read key now w)).
Proof.
  eexists. split; [reflexivity|]. cbn [store ttl_store file].
  split; [reflexivity|]. split; [reflexivity|]. split; [reflexivity|].
  split.
  - intros key now. apply simulates_read. split; reflexivity.
  - intros Hdoc. pose proof (dict_map_documents _ Hdoc) as E.
    split; [exact E|].
    intros key now. apply respects_read. split; [exact E | reflexivity].
Qed.

(** C3, as the code has it.  When [create(key, value, ttl)] with a TTL other
    than zero returns, the expiry [now + ttl] is recorded, and a [read] at
    any instant strictly after the expiry raises a KeyError.  On a store that
    satisfies the invariant of the data model that KeyError is the one of a
    missing key, and the entry still reads at every instant up to and
    including its expiry. *)
Theorem ttl_expiry_strict key v ttl now w w' :
  ttl <> 0%Z ->
  create key v (Some ttl) now w = (Ok tt, w') ->
  dict_get key (ttl_store w') = Some (now + ttl)%Z /\
  (forall now', (now + ttl < now')%Z ->
     exists e, fst (read key now' w') = Raise e /\ is_KeyError e) /\
  (store_ok w ->
   (forall now', (now + ttl < now')%Z ->
      fst (read key now' w') = Raise KeyError_not_found) /\
   (forall now', (now' <= now + ttl)%Z -> fst (read key now' w') = Ok v)).
Proof.
  intros Hz Hc.
  destruct (create_inv _ _ _ _ _ Hc (or_introl eq_refl))
    as (_ & _ & w1 & Hsw & Hm & -> & _).
  apply clean_Ok_inv in Hsw. subst w1.
  assert (truthy (Some ttl) = true) as Htr.
  { cbn. apply negb_true_iff. now apply Z.eqb_neq. }
  set (wc := created key v (Some ttl) now (swept now w)).
  assert (dict_get key (ttl_store wc) = Some (now + ttl)%Z) as Hexp.
  { unfold wc, created. rewrite Htr. cbn [ttl_store ttl_seconds].
    apply dict_get_set_eq. }
  assert (forall now', (now + ttl < now')%Z ->
            dict_get key (store (swept now' wc)) = None) as Hgone.
  { intros now' Hlt. rewrite swept_store_get. unfold _is_key_expired.
    rewrite Hexp.
    destruct (Z.ltb_spec (now + ttl) now') as [_|]; [reflexivity|lia]. }
  split; [exact Hexp|]. split.
  - intros now' Hlt. unfold read. unfold bind at 1.
    destruct (_clean_expired_keys now' wc) as [[[]|e] w2] eqn:Hs.
    + apply clean_Ok_inv in Hs. subst w2.
      exists KeyError_not_found. split; [|exact I].
      unfold read_locked, bind, get_world. now rewrite (Hgone now' Hlt).
    + exists e. split; [reflexivity|].
      apply clean_raise in Hs as [k ->]. exact I.
  - intros Hok.
    pose proof (created_ok key v (Some ttl) now (swept_ok now Hok)) as Hokc.
    fold wc in Hokc.
    split; intros now' Hlt; rewrite (read_spec _ _ Hokc); cbn [fst].
    + now rewrite (Hgone now' Hlt).
    + rewrite swept_store_get. unfold _is_key_expired. rewrite Hexp.
      destruct (Z.ltb_spec (now + ttl) now') as [|_]; [lia|].
      unfold wc, created. cbn [store]. now rewrite dict_get_set_eq.
Qed.

End ReadFacts.

(** ** Predicates kept by every operation *)

Section Invariants.

Context {value : Type} {ser : Serializer value}.
Implicit Types (w : world value) (k key : string) (v : value) (now : Z).
Implicit Type P : world value -> Prop.

Notation "x <- c ;; k" := (bind c (fun x => k))
  (at level 61, c at next level, right associativity).
Notation "c ;; k" := (bind c (fun _ => k))
  (at level 61, right associativity).

Lemma preserves_ret {A} P (a : A) : preserves P (ret a).
Proof. intros w H. exact H. Qed.

Lemma preserves_raise {A} P e : preserves P (raise (A:=A) e).
Proof. intros w H. exact H. Qed.

Lemma preserves_bind {A B} P (c : M value A) (f : A -> M value B) :
  preserves P c -> (forall a, preserves P (f a)) -> preserves P (bind c f).
Proof.
  intros Hc Hf w H. unfold bind. specialize (Hc w H).
  destruct (c w) as [[a|e] w1]; cbn in Hc |- *; [now apply Hf | exact Hc].
Qed.

Lemma preserves_with_world {A} P (f : world value -> M value A) :
  (forall w, P w -> P (snd (f w w))) -> preserves P (bind get_world f).
Proof. intros H w Hw. unfold bind, get_world. now apply H. Qed.

Lemma preserves_modify P (f : world value -> world value) :
  (forall w, P w -> P (f w)) -> preserves P (modify f).
Proof. intros H w Hw. now apply H. Qed.

Lemma preserves_for_each {A} P (l : list A) (body : A -> M value unit) :
  (forall x, In x l -> preserves P (body x)) -> preserves P (for_each l body).
Proof.
  induction l as [|x l IH]; intros Hb; cbn [for_each].
  - apply preserves_ret.
  - apply preserves_bind; [apply Hb; now left|].
    intros _. apply IH. intros y Hy. apply Hb. now right.
Qed.

Lemma preserves_save P : on_maps P -> preserves P _save_store.
Proof. intros HP w Hw. apply (HP w); [split; reflexivity | exact Hw]. Qed.

Lemma preserves_check P : preserves P _check_file_size.
Proof.
  intros w Hw. unfold _check_file_size, bind, get_world.
  destruct (file w) as [c|]; [|exact Hw].
  destruct (max_file_size w <? getsize c)%N; exact Hw.
Qed.

(** The shape shared by the four public operations. *)
Lemma preserves_clean P now :
  on_maps P ->
  (forall key, preserves P (del_store key ;; del_ttl_store key)) ->
  preserves P (_clean_expired_keys now).
Proof.
  intros HP Hb. unfold _clean_expired_keys.
  apply preserves_with_world. intros w Hw.
  apply preserves_bind; [|intros _; now apply preserves_save|exact Hw].
  apply preserves_for_each. intros x _. apply Hb.
Qed.

Lemma ttl_subset_on_maps : on_maps (@ttl_subset value).
Proof. intros w w' [Hs Ht] H k. rewrite <- Hs, <- Ht. apply H. Qed.

Lemma keys_bounded_on_maps : on_maps (@keys_bounded value).
Proof. intros w w' [Hs Ht] H k. rewrite <- Hs. apply H. Qed.

Lemma ttl_subset_sweep_step key :
  preserves (@ttl_subset value) (del_store key ;; del_ttl_store key).
Proof.
  intros w Hw. unfold bind.
  destruct (in_dec string_dec key (keys (store w))) as [Hs|Hs].
  - rewrite (del_store_present _ _ Hs).
    destruct (in_dec string_dec key
                (keys (ttl_store (with_store (dict_remove key (store w)) w))))
      as [Ht|Ht].
    + rewrite (del_ttl_store_present _ _ Ht).
      intros k. fields. rewrite !keys_remove. intros [Hne Hk]. auto.
    + rewrite (del_ttl_store_absent _ _ Ht).
      intros k. fields. rewrite keys_remove. intros Hk.
      split; [|now apply Hw]. intros ->. now apply Ht.
  - rewrite (del_store_absent _ _ Hs). exact Hw.
Qed.

Lemma ttl_subset_insert key v ttl now :
  preserves (@ttl_subset value) (insert_entry key v ttl now).
Proof.
  intros w Hw k. unfold insert_entry, bind, modify, ret.
  destruct (truthy ttl); fields; rewrite !keys_set; intuition.
Qed.

Lemma ttl_subset_delete_locked key :
  preserves (@ttl_subset value) (delete_locked key).
Proof.
  intros w Hw. unfold delete_locked. unfold bind at 1. unfold get_world at 1.
  destruct (dict_mem key (store w)) eqn:Hm; [|exact Hw]. cbn [negb].
  apply dict_mem_In in Hm.
  unfold bind at 1. rewrite (del_store_present _ _ Hm).
  unfold bind, get_world.
  set (w1 := with_store (dict_remove key (store w)) w).
  destruct (dict_mem key (ttl_store w1)) eqn:Ht.
  - apply dict_mem_In in Ht. rewrite (del_ttl_store_present _ _ Ht).
    subst w1. intros k. fields. rewrite !keys_remove. intros [Hne Hk]. auto.
  - apply dict_mem_false in Ht.
    subst w1. intros k. fields. rewrite keys_remove. intros Hk.
    split; [|now apply Hw]. intros ->. now apply Ht.
Qed.

Lemma ttl_subset_batch_item ttl now (kv : string * value) :
  preserves (@ttl_subset value) (batch_item ttl now kv).
Proof.
  destruct kv as [key v]. unfold batch_item.
  destruct (32 <? String.length key); [apply preserves_raise|].
  destruct (16 * 1024 <? dumps_len v); [apply preserves_raise|].
  apply preserves_with_world. intros w Hw.
  destruct (dict_mem key (store w)); [exact Hw|].
  now apply ttl_subset_insert.
Qed.

(** C5.  Each of the four public operations, whether it returns or raises,
    leaves a state in which every key of [ttl_store] is a key of [store],
    provided it started in such a state. *)
Theorem ttl_subset_preserved w :
  ttl_subset w ->
  (forall key v ttl now, ttl_subset (snd (create key v ttl now w))) /\
  (forall key now, ttl_subset (snd (read key now w))) /\
  (forall key now, ttl_subset (snd (delete key now w))) /\
  (forall items ttl now, ttl_subset (snd (batch_create items ttl now w))).
Proof.
  intros Hw.
  assert (forall now, preserves (@ttl_subset value) (_clean_expired_keys now))
    as Hclean.
  { intros now. apply preserves_clean;
      [apply ttl_subset_on_maps | apply ttl_subset_sweep_step]. }
  pose proof (preserves_save ttl_subset_on_maps) as Hsave.
  repeat split.
  - intros key v ttl now. revert w Hw.
    change (preserves ttl_subset (create key v ttl now)). unfold create.
    destruct (32 <? String.length key); [apply preserves_raise|].
    destruct (16 * 1024 <? dumps_len v); [apply preserves_raise|].
    apply preserves_bind; [apply Hclean|]. intros _.
    apply preserves_with_world. intros w Hw.
    destruct (dict_mem key (store w)); [exact Hw|].
    revert w Hw. apply preserves_bind; [apply ttl_subset_insert|]. intros _.
    apply preserves_bind; [apply Hsave|]. intros _. apply preserves_check.
  - intros key now. revert w Hw.
    change (preserves (value:=value) (A:=value) ttl_subset (read key now)). unfold read.
    apply preserves_bind; [apply Hclean|]. intros _.
    apply preserves_with_world. intros w Hw.
    destruct (dict_get key (store w)); exact Hw.
  - intros key now. revert w Hw.
    change (preserves (value:=value) ttl_subset (delete key now)). unfold delete.
    apply preserves_bind; [apply Hclean|]. intros _.
    apply ttl_subset_delete_locked.
  - intros items ttl now. revert w Hw.
    change (preserves ttl_subset (batch_create items ttl now)).
    unfold batch_create.
    destruct (100 <? length items); [apply preserves_raise|].
    apply preserves_bind; [apply Hclean|]. intros _.
    unfold batch_locked.
    apply preserves_bind;
      [apply preserves_for_each; intros x _; apply ttl_subset_batch_item|].
    intros _. apply preserves_bind; [apply Hsave|]. intros _.
    apply preserves_check.
Qed.

End Invariants.

(** ** The loop of [batch_create] *)

Section BatchFacts.

Context {value : Type} {ser : Serializer value}.
Implicit Types (w : world value) (k key : string) (v : value) (now : Z).
Implicit Types (items pre post : dict value) (ttl : option Z).

Notation "x <- c ;; k" := (bind c (fun x => k))
  (at level 61, c at next level, right associativity).
Notation "c ;; k" := (bind c (fun _ => k))
  (at level 61, right associativity).

Lemma insert_entry_spec key v ttl now w :
  insert_entry key v ttl now w = (Ok tt, inserted key v ttl now w).
Proof.
  unfold insert_entry, inserted, bind, modify, ret.
  destruct (truthy ttl); reflexivity.
Qed.

Lemma batch_item_spec ttl now key v w :
  batch_item ttl now (key, v) w =
  if 32 <? String.length key then (Raise ValueError_key_length, w)
  else if 16 * 1024 <? dumps_len v then (Raise ValueError_value_size, w)
  else if dict_mem key (store w) then (Raise KeyError_exists, w)
  else (Ok tt, inserted key v ttl now w).
Proof.
  unfold batch_item.
  destruct (32 <? String.length key); [reflexivity|].
  destruct (16 * 1024 <? dumps_len v); [reflexivity|].
  unfold bind, get_world.
  destruct (dict_mem key (store w)); [reflexivity|].
  apply insert_entry_spec.
Qed.

Lemma batch_item_raise ttl now (kv : string * value) w e w' :
  batch_item ttl now kv w = (Raise e, w') -> w' = w /\ item_error e.
Proof.
  destruct kv as [key v]. rewrite batch_item_spec. unfold item_error.
  destruct (32 <? String.length key); [intros [= <- <-]; auto|].
  destruct (16 * 1024 <? dumps_len v); [intros [= <- <-]; auto|].
  destruct (dict_mem key (store w)); [intros [= <- <-]; auto 6|].
  discriminate.
Qed.

Lemma batch_item_ok ttl now key v w w' :
  batch_item ttl now (key, v) w = (Ok tt, w') ->
  w' = inserted key v ttl now w /\
  ~ In key (keys (store w)) /\
  item_fits (key, v).
Proof.
  rewrite batch_item_spec. unfold item_fits. cbn [fst snd].
  destruct (Nat.ltb_spec 32 (String.length key)); [discriminate|].
  destruct (Nat.ltb_spec (16 * 1024) (dumps_len v)); [discriminate|].
  destruct (dict_mem key (store w)) eqn:Hm; [discriminate|].
  intros [= <-]. apply dict_mem_false in Hm. auto.
Qed.

Lemma inserted_applied key v ttl now w :
  entry_applied ttl now key v (inserted key v ttl now w).
Proof.
  unfold entry_applied, inserted. cbn [store ttl_store]. split.
  - apply dict_get_set_eq.
  - intros ->. apply dict_get_set_eq.
Qed.

Lemma inserted_keeps key v ttl now w k0 v0 ttl0 now0 :
  ~ In key (keys (store w)) ->
  entry_applied ttl0 now0 k0 v0 w ->
  entry_applied ttl0 now0 k0 v0 (inserted key v ttl now w).
Proof.
  intros Hfresh [Hs Ht].
  assert (key <> k0) as Hne.
  { intros ->. apply Hfresh. eapply dict_get_In_keys; eauto. }
  unfold entry_applied, inserted. cbn [store ttl_store]. split.
  - now rewrite dict_get_set_ne.
  - intros Htr. destruct (truthy ttl); [rewrite dict_get_set_ne|]; auto.
Qed.

(** What a loop that ran to its end has done. *)
Lemma batch_loop_ok ttl now items : forall w w',
  for_each items (batch_item ttl now) w = (Ok tt, w') ->
  file w' = file w /\
  max_file_size w' = max_file_size w /\
  (forall k v ttl0 now0,
     entry_applied ttl0 now0 k v w -> entry_applied ttl0 now0 k v w') /\
  (forall k v, In (k, v) items ->
     entry_applied ttl now k v w' /\ ~ In k (keys (store w))).
Proof.
  induction items as [|[key v] items IH]; intros w w' H.
  - injection H as <-.
    split; [reflexivity|]. split; [reflexivity|]. split; [auto|].
    intros k v [].
  - cbn [for_each] in H. unfold bind at 1 in H.
    destruct (batch_item ttl now (key, v) w) as [[[]|e] w1] eqn:Hb;
      [|discriminate].
    apply batch_item_ok in Hb as (-> & Hfresh & _).
    apply IH in H as (Hf & Hm & Hkeep & Hin).
    split; [exact Hf|]. split; [exact Hm|]. split.
    + intros k0 v0 ttl0 now0 Hq. apply Hkeep. now apply inserted_keeps.
    + intros k0 v0 [[= <- <-]|H]; split.
      * apply Hkeep, inserted_applied.
      * exact Hfresh.
      * now apply Hin.
      * apply Hin in H as [_ Hn]. intros Hk. apply Hn.
        unfold inserted. cbn [store]. apply keys_set. now right.
Qed.

(** A loop stops at the first turn that raises. *)
Lemma for_each_stops {A} (body : A -> M value unit) (l1 : list A) x (l2 : list A) :
  forall w w2 e w3,
  for_each l1 body w = (Ok tt, w2) ->
  body x w2 = (Raise e, w3) ->
  for_each (l1 ++ x :: l2) body w = (Raise e, w3).
Proof.
  induction l1 as [|y l1 IH]; intros w w2 e w3 Hpre Hx.
  - injection Hpre as <-. cbn [app for_each]. now rewrite (bind_raise _ _ _ Hx).
  - cbn [app for_each] in Hpre |- *. unfold bind at 1 in Hpre. unfold bind at 1.
    destruct (body y w) as [[[]|e'] w1]; [|discriminate].
    eapply IH; eauto.
Qed.

Lemma for_each_raise_split {A} (body : A -> M value unit) (l : list A) :
  forall w e w3,
  for_each l body w = (Raise e, w3) ->
  exists l1 x l2 w2,
    l = l1 ++ x :: l2 /\
    for_each l1 body w = (Ok tt, w2) /\
    body x w2 = (Raise e, w3).
Proof.
  induction l as [|y l IH]; intros w e w3 H.
  - discriminate.
  - cbn [for_each] in H. unfold bind at 1 in H.
    destruct (body y w) as [[[]|e'] w1] eqn:Hy.
    + apply IH in H as (l1 & x & l2 & w2 & -> & Hpre & Hx).
      exists (y :: l1), x, l2, w2. repeat split; auto.
      cbn [for_each]. now rewrite (bind_ok _ _ _ Hy).
    + injection H as <- <-. exists [], y, l, w. repeat split; auto.
Qed.

(** The sweep, when it returns, has saved what it left in memory. *)
Lemma clean_Ok_synced now w w1 :
  _clean_expired_keys now w = (Ok tt, w1) -> file_synced w1.
Proof.
  unfold _clean_expired_keys, bind, get_world. intros H.
  destruct (for_each _ _ w) as [[[]|e] w2]; [|discriminate].
  injection H as <-. reflexivity.
Qed.

(** [batch_create] stopped by one of its items. *)
Lemma batch_abort ttl now pre it post w w1 w2 e w3 :
  length (pre ++ it :: post) <= 100 ->
  _clean_expired_keys now w = (Ok tt, w1) ->
  for_each pre (batch_item ttl now) w1 = (Ok tt, w2) ->
  batch_item ttl now it w2 = (Raise e, w3) ->
  batch_create (pre ++ it :: post) ttl now w = (Raise e, w2).
Proof.
  intros Hlen Hc Hpre Hit.
  destruct (batch_item_raise _ _ _ _ Hit) as [-> _].
  unfold batch_create.
  destruct (Nat.ltb_spec 100 (length (pre ++ it :: post))); [lia|].
  rewrite (bind_ok _ _ _ Hc). unfold batch_locked.
  apply bind_raise. eapply for_each_stops; eauto.
Qed.

(** C7.  [batch_create] with more than 100 items raises the ValueError of
    the batch size and changes nothing: the two mappings and the backing
    file are what they were. *)
Theorem batch_too_large items ttl now w :
  100 < length items ->
  batch_create items ttl now w = (Raise ValueError_batch_size, w).
Proof.
  intros Hlen. unfold batch_create.
  destruct (Nat.ltb_spec 100 (length items)); [reflexivity|lia].
Qed.

(** C8.  When the items before [it] have been processed and the turn of
    [it] raises, [batch_create] raises that very exception, which is one of
    the two validation errors or the duplicate error, and every earlier
    item is in memory with its value and, when a TTL was given, its
    expiry. *)
Theorem batch_abort_keeps_prefix ttl now pre it post w w1 w2 e w3 :
  length (pre ++ it :: post) <= 100 ->
  _clean_expired_keys now w = (Ok tt, w1) ->
  for_each pre (batch_item ttl now) w1 = (Ok tt, w2) ->
  batch_item ttl now it w2 = (Raise e, w3) ->
  exists w',
    batch_create (pre ++ it :: post) ttl now w = (Raise e, w') /\
    item_error e /\
    forall k v, In (k, v) pre -> entry_applied ttl now k v w'.
Proof.
  intros Hlen Hc Hpre Hit. exists w2.
  split; [eapply batch_abort; eauto|].
  split; [eapply batch_item_raise; eauto|].
  intros k v Hin.
  now apply (batch_loop_ok _ _ _ _ Hpre) in Hin as [Hq _].
Qed.

(** C10.  In the same situation the failing call has written the file once,
    at the end of its sweep: the file holds the state the sweep left, in
    which none of the earlier items appears, while memory holds them; the
    file stops being a copy of memory as soon as one item was applied, and
    it is one again after the next sweep that returns. *)
Theorem batch_abort_not_persisted ttl now pre it post w w1 w2 e w3 :
  length (pre ++ it :: post) <= 100 ->
  _clean_expired_keys now w = (Ok tt, w1) ->
  for_each pre (batch_item ttl now) w1 = (Ok tt, w2) ->
  batch_item ttl now it w2 = (Raise e, w3) ->
  let w' := snd (batch_create (pre ++ it :: post) ttl now w) in
  file w' = Some (snapshot w1) /\
  (forall k v, In (k, v) pre ->
     dict_get k (store w') = Some v /\ dict_get k (store w1) = None) /\
  (pre <> [] -> ~ file_synced w') /\
  (forall now2 w'', _clean_expired_keys now2 w' = (Ok tt, w'') ->
     file_synced w'').
Proof.
  intros Hlen Hc Hpre Hit.
  rewrite (@batch_abort ttl now pre it post w w1 w2 e w3 Hlen Hc Hpre Hit).
  cbn [snd].
  destruct (batch_loop_ok _ _ _ _ Hpre) as (Hf & _ & _ & Hin).
  pose proof (clean_Ok_synced _ _ Hc) as Hsync.
  assert (forall k v, In (k, v) pre ->
            dict_get k (store w2) = Some v /\ dict_get k (store w1) = None)
    as Hmem.
  { intros k v Hkv. apply Hin in Hkv as [[Hs _] Hn].
    split; [exact Hs | now apply dict_get_None]. }
  split; [|split; [|split]].
  - now rewrite Hf.
  - exact Hmem.
  - intros Hne Hs2. destruct pre as [|[k v] pre]; [congruence|].
    destruct (Hmem k v (or_introl eq_refl)) as [H2 H1].
    unfold file_synced in Hs2, Hsync. rewrite Hf, Hsync in Hs2.
    injection Hs2 as Hst _. rewrite Hst in H1. congruence.
  - intros now2 w''. apply clean_Ok_synced.
Qed.


End BatchFacts.

(** ** Predicates on the value mapping *)

Section StorePredicates.

Context {value : Type} {ser : Serializer value}.
Implicit Types (w : world value) (k key : string) (v : value) (now : Z).

Notation "x <- c ;; k" := (bind c (fun x => k))
  (at level 61, c at next level, right associativity).
Notation "c ;; k" := (bind c (fun _ => k))
  (at level 61, right associativity).

(** [P] looks at the value mapping only and survives deletions; it survives
    the insertion of the keys that satisfy [Q]. *)
Variable P : world value -> Prop.
Variable Q : string -> Prop.
Hypothesis P_store : forall w w', store w = store w' -> P w -> P w'.
Hypothesis P_remove :
  forall w key, P w -> P (with_store (dict_remove key (store w)) w).
Hypothesis P_set :
  forall w key v, Q key -> P w -> P (with_store (dict_set key v (store w)) w).

Lemma store_pred_on_maps : on_maps P.
Proof. intros w w' [Hs _]. now apply P_store. Qed.

Lemma store_pred_del_store key : preserves P (del_store key).
Proof.
  intros w Hw. unfold del_store, bind, get_world, dict_del.
  destruct (dict_mem key (store w)); [|exact Hw]. now apply P_remove.
Qed.

Lemma store_pred_del_ttl_store key : preserves P (del_ttl_store key).
Proof.
  intros w Hw. unfold del_ttl_store, bind, get_world.
  destruct (dict_del key (ttl_store w)); [|exact Hw].
  eapply P_store; [|exact Hw]. reflexivity.
Qed.

Lemma store_pred_clean now : preserves P (_clean_expired_keys now).
Proof.
  apply preserves_clean; [apply store_pred_on_maps|]. intros key.
  apply preserves_bind; [apply store_pred_del_store|].
  intros _. apply store_pred_del_ttl_store.
Qed.

Lemma store_pred_insert key v ttl now :
  Q key -> preserves P (insert_entry key v ttl now).
Proof.
  intros HQ w Hw. rewrite insert_entry_spec. cbn [snd].
  eapply P_store; [|apply (P_set v HQ Hw)]. reflexivity.
Qed.

Lemma store_pred_read_locked key : preserves (A:=value) P (read_locked key).
Proof.
  unfold read_locked. apply preserves_with_world. intros w Hw.
  destruct (dict_get key (store w)); exact Hw.
Qed.

Lemma store_pred_delete_locked key : preserves P (delete_locked key).
Proof.
  unfold delete_locked. apply preserves_with_world. intros w Hw.
  destruct (dict_mem key (store w)); [|exact Hw]. cbn [negb].
  revert w Hw. apply preserves_bind; [apply store_pred_del_store|]. intros _.
  apply preserves_bind; [|intros _; apply preserves_save, store_pred_on_maps].
  apply preserves_with_world. intros w Hw.
  destruct (dict_mem key (ttl_store w)); [|exact Hw].
  now apply store_pred_del_ttl_store.
Qed.

Lemma store_pred_create_locked key v ttl now :
  Q key -> preserves P (create_locked key v ttl now).
Proof.
  intros HQ. unfold create_locked.
  apply preserves_with_world. intros w Hw.
  destruct (dict_mem key (store w)); [exact Hw|].
  revert w Hw. apply preserves_bind; [apply store_pred_insert; auto|].
  intros _. apply preserves_bind; [apply preserves_save, store_pred_on_maps|].
  intros _. apply preserves_check.
Qed.

Lemma store_pred_batch_item ttl now (kv : string * value) :
  (String.length (fst kv) <= 32 -> Q (fst kv)) ->
  preserves P (batch_item ttl now kv).
Proof.
  destruct kv as [key v]. cbn [fst]. intros HQ. unfold batch_item.
  destruct (Nat.ltb_spec 32 (String.length key)); [apply preserves_raise|].
  destruct (16 * 1024 <? dumps_len v); [apply preserves_raise|].
  apply preserves_with_world. intros w Hw.
  destruct (dict_mem key (store w)); [exact Hw|].
  apply store_pred_insert; auto.
Qed.

Lemma store_pred_batch_locked (items : dict value) ttl now :
  (forall key, In key (keys items) -> String.length key <= 32 -> Q key) ->
  preserves P (batch_locked items ttl now).
Proof.
  intros HQ. unfold batch_locked. apply preserves_bind.
  - apply preserves_for_each. intros kv Hkv.
    apply store_pred_batch_item. apply HQ. now apply in_map.
  - intros _.
    apply preserves_bind; [apply preserves_save, store_pred_on_maps|].
    intros _. apply preserves_check.
Qed.

Lemma store_pred_read key now : preserves (A:=value) P (read key now).
Proof.
  unfold read. apply preserves_bind; [apply store_pred_clean|]. intros _.
  apply store_pred_read_locked.
Qed.

Lemma store_pred_delete key now : preserves P (delete key now).
Proof.
  unfold delete. apply preserves_bind; [apply store_pred_clean|]. intros _.
  apply store_pred_delete_locked.
Qed.

Lemma store_pred_create key v ttl now :
  (String.length key <= 32 -> Q key) -> preserves P (create key v ttl now).
Proof.
  intros HQ. unfold create.
  destruct (Nat.ltb_spec 32 (String.length key)); [apply preserves_raise|].
  destruct (16 * 1024 <? dumps_len v); [apply preserves_raise|].
  apply preserves_bind; [apply store_pred_clean|]. intros _.
  apply store_pred_create_locked. auto.
Qed.

Lemma store_pred_batch_create (items : dict value) ttl now :
  (forall key, In key (keys items) -> String.length key <= 32 -> Q key) ->
  preserves P (batch_create items ttl now).
Proof.
  intros HQ. unfold batch_create.
  destruct (100 <? length items); [apply preserves_raise|].
  apply preserves_bind; [apply store_pred_clean|]. intros _.
  now apply store_pred_batch_locked.
Qed.

End StorePredicates.

(** ** Where the sweep stands, and the bound on key lengths *)

Section Placement.

Context {value : Type} {ser : Serializer value}.
Implicit Types (w : world value) (k key : string) (v : value) (now : Z).

Lemma absent_store k w w' :
  store w = store w' -> dict_get k (store w) = None -> dict_get k (store w') = None.
Proof. now intros <-. Qed.

Lemma absent_remove k w key :
  dict_get k (store w) = None ->
  dict_get k (store (with_store (dict_remove key (store w)) w)) = None.
Proof.
  fields. rewrite !dict_get_None, keys_remove. tauto.
Qed.

Lemma absent_set k w key v :
  key <> k ->
  dict_get k (store w) = None ->
  dict_get k (store (with_store (dict_set key v (store w)) w)) = None.
Proof. intros Hne H. fields. now rewrite dict_get_set_ne. Qed.

Lemma bounded_store w w' : store w = store w' -> keys_bounded w -> keys_bounded w'.
Proof. unfold keys_bounded. now intros <-. Qed.

Lemma bounded_remove w key :
  keys_bounded w -> keys_bounded (with_store (dict_remove key (store w)) w).
Proof.
  unfold keys_bounded. fields. intros H k. rewrite keys_remove. intros [_ Hk]. auto.
Qed.

Lemma bounded_set w key v :
  String.length key <= 32 ->
  keys_bounded w -> keys_bounded (with_store (dict_set key v (store w)) w).
Proof.
  unfold keys_bounded. fields. intros Hlen H k. rewrite keys_set.
  intros [->|Hk]; auto.
Qed.

(** A batch that returned has every one of its items in memory. *)
Lemma batch_create_Ok items ttl now w w' :
  batch_create items ttl now w = (Ok tt, w') ->
  forall k v, In (k, v) items -> entry_applied ttl now k v w'.
Proof.
  intros H. unfold batch_create in H.
  destruct (100 <? length items); [discriminate|].
  unfold bind at 1 in H.
  destruct (_clean_expired_keys now w) as [[[]|e] w1]; [|discriminate].
  unfold batch_locked in H. unfold bind at 1 in H.
  destruct (for_each items (batch_item ttl now) w1) as [[[]|e] w2] eqn:Hl;
    [|discriminate].
  destruct (batch_loop_ok _ _ _ _ Hl) as (_ & _ & _ & Hin).
  unfold bind at 1 in H. cbn [_save_store modify] in H.
  rewrite (check_file_size_spec (with_file (Some (snapshot w2)) w2) eq_refl) in H.
  injection H as _ <-.
  intros k v Hkv. now apply Hin in Hkv as [Hq _].
Qed.

(** C4, as the code has it.  [read] and [delete] sweep at once; [create]
    sweeps after its two argument checks have passed and [batch_create]
    after its size check has passed.  So on a well-formed store an entry
    [k] that is expired at [now] is gone after [read], after [delete],
    after a [create] of another key whose arguments pass the checks and
    after a [batch_create] of at most 100 other keys, whether these calls
    return or raise (a failing item of a batch included); whereas a [create]
    with a key over 32 characters or a value over 16 KiB and a
    [batch_create] of more than 100 items raise their ValueError on the
    untouched state, in which [k] still has its value. *)
Theorem sweep_placement now w k :
  store_ok w ->
  _is_key_expired now k w = true ->
  (forall key, dict_get k (store (snd (read key now w))) = None) /\
  (forall key, dict_get k (store (snd (delete key now w))) = None) /\
  (forall key v ttl,
     String.length key <= 32 -> dumps_len v <= 16 * 1024 -> key <> k ->
     dict_get k (store (snd (create key v ttl now w))) = None) /\
  (forall items ttl,
     length items <= 100 -> ~ In k (keys items) ->
     dict_get k (store (snd (batch_create items ttl now w))) = None) /\
  (forall key v ttl,
     32 < String.length key ->
     create key v ttl now w = (Raise ValueError_key_length, w)) /\
  (forall key v ttl,
     String.length key <= 32 -> 16 * 1024 < dumps_len v ->
     create key v ttl now w = (Raise ValueError_value_size, w)) /\
  (forall items ttl,
     100 < length items ->
     batch_create items ttl now w = (Raise ValueError_batch_size, w)) /\
  dict_mem k (store w) = true.
Proof.
  intros Hok Hexp.
  pose proof (clean_ok now Hok) as Hc.
  assert (dict_get k (store (swept now w)) = None) as Hgone.
  { rewrite swept_store_get. now rewrite Hexp. }
  pose (P := fun w0 : world value => dict_get k (store w0) = None).
  pose (Q := fun key : string => key <> k).
  assert (forall w0 w0', store w0 = store w0' -> P w0 -> P w0') as P1
    by (intros w0 w0'; apply absent_store).
  assert (forall w0 key, P w0 -> P (with_store (dict_remove key (store w0)) w0))
    as P2 by (intros w0 key; apply absent_remove).
  assert (forall w0 key v, Q key -> P w0 ->
            P (with_store (dict_set key v (store w0)) w0)) as P3
    by (intros w0 key v; apply absent_set).
  split; [|split; [|split; [|split; [|split; [|split; [|split]]]]]].
  - intros key. unfold read. rewrite (bind_ok _ _ _ Hc).
    now apply (store_pred_read_locked P key).
  - intros key. unfold delete. rewrite (bind_ok _ _ _ Hc).
    now apply (store_pred_delete_locked P P1 P2 key).
  - intros key v ttl Hlen Hsz Hne. unfold create.
    destruct (Nat.ltb_spec 32 (String.length key)); [lia|].
    destruct (Nat.ltb_spec (16 * 1024) (dumps_len v)); [lia|].
    rewrite (bind_ok _ _ _ Hc).
    now apply (store_pred_create_locked P Q P1 P3 key v ttl now Hne).
  - intros items ttl Hlen Hnk. unfold batch_create.
    destruct (Nat.ltb_spec 100 (length items)); [lia|].
    rewrite (bind_ok _ _ _ Hc).
    apply (store_pred_batch_locked P Q P1 P3 items ttl now); [|exact Hgone].
    intros key Hin _ ->. contradiction.
  - intros key v ttl Hlen. unfold create.
    destruct (Nat.ltb_spec 32 (String.length key)); [reflexivity|lia].
  - intros key v ttl Hlen Hsz. unfold create.
    destruct (Nat.ltb_spec 32 (String.length key)); [lia|].
    destruct (Nat.ltb_spec (16 * 1024) (dumps_len v)); [reflexivity|lia].
  - intros items ttl Hlen. unfold batch_create.
    destruct (Nat.ltb_spec 100 (length items)); [reflexivity|lia].
  - destruct Hok as (_ & _ & Hsub). apply dict_mem_In, Hsub.
    unfold _is_key_expired in Hexp.
    destruct (dict_get k (ttl_store w)) eqn:E; [|discriminate].
    eapply dict_get_In_keys; eauto.
Qed.

End Placement.

Section KeyLength.

Context {value : Type} {ser : Serializer value}.
Implicit Types (w : world value) (k key : string) (v : value) (now : Z).

(** C6, as the code has it.  The only bound on a key is the upper one: if no
    key of the store is longer than 32 characters, none is after any of the
    four operations, since [create] and the turn of [batch_create] for a key
    of more than 32 characters raise the ValueError of the key length on an
    unchanged state, and a batch that holds such a key never returns.
    Nothing bounds the length from below. *)
Theorem key_length_bound w :
  keys_bounded w ->
  (forall key v ttl now, keys_bounded (snd (create key v ttl now w))) /\
  (forall key now, keys_bounded (snd (read key now w))) /\
  (forall key now, keys_bounded (snd (delete key now w))) /\
  (forall items ttl now, keys_bounded (snd (batch_create items ttl now w))) /\
  (forall key v ttl now,
     32 < String.length key ->
     create key v ttl now w = (Raise ValueError_key_length, w)) /\
  (forall key v ttl now,
     32 < String.length key ->
     batch_item ttl now (key, v) w = (Raise ValueError_key_length, w)) /\
  (forall items ttl now key v,
     In (key, v) items -> 32 < String.length key ->
     exists e, fst (batch_create items ttl now w) = Raise e).
Proof.
  intros Hw.
  pose (Q := fun key : string => String.length key <= 32).
  assert (forall w0 w0' : world value,
            store w0 = store w0' -> keys_bounded w0 -> keys_bounded w0') as P1
    by (intros w0 w0'; apply bounded_store).
  assert (forall (w0 : world value) key, keys_bounded w0 ->
            keys_bounded (with_store (dict_remove key (store w0)) w0)) as P2
    by (intros w0 key; apply bounded_remove).
  assert (forall (w0 : world value) key v, Q key -> keys_bounded w0 ->
            keys_bounded (with_store (dict_set key v (store w0)) w0)) as P3
    by (intros w0 key v; apply bounded_set).
  assert (forall items ttl now,
            keys_bounded (snd (batch_create items ttl now w))) as Hbatch.
  { intros items ttl now.
    apply (store_pred_batch_create _ Q P1 P2 P3 items ttl now); [|exact Hw].
    intros key _ Hlen. exact Hlen. }
  split; [|split; [|split; [|split; [|split; [|split]]]]].
  - intros key v ttl now.
    apply (store_pred_create _ Q P1 P2 P3 key v ttl now); [|exact Hw]. auto.
  - intros key now. now apply (store_pred_read _ P1 P2 key now).
  - intros key now. now apply (store_pred_delete _ P1 P2 key now).
  - exact Hbatch.
  - intros key v ttl now Hlen. unfold create.
    destruct (Nat.ltb_spec 32 (String.length key)); [reflexivity|lia].
  - intros key v ttl now Hlen. rewrite batch_item_spec.
    destruct (Nat.ltb_spec 32 (String.length key)); [reflexivity|lia].
  - intros items ttl now key v Hin Hlen.
    specialize (Hbatch items ttl now).
    destruct (batch_create items ttl now w) as [[[]|e] w'] eqn:Hb;
      [exfalso | now exists e].
    destruct (batch_create_Ok _ _ _ _ Hb _ _ Hin) as [Hget _].
    apply dict_get_In_keys, Hbatch in Hget. lia.
Qed.

End KeyLength.

(** ** The file after a call that returned *)

Section Synced.

Context {value : Type} {ser : Serializer value}.
Implicit Types (w : world value) (k key : string) (v : value) (now : Z).

Lemma save_synced w : file_synced (snd (_save_store w)).
Proof. reflexivity. Qed.

(** Every public call that returns leaves the backing file a copy of the two
    mappings in memory, so that a restart at that point loses nothing. *)
Lemma returns_synced w :
  (forall key v ttl now w',
     create key v ttl now w = (Ok tt, w') -> file_synced w') /\
  (forall key now v w', read key now w = (Ok v, w') -> file_synced w') /\
  (forall key now w', delete key now w = (Ok tt, w') -> file_synced w') /\
  (forall items ttl now w',
     batch_create items ttl now w = (Ok tt, w') -> file_synced w').
Proof.
  split; [|split; [|split]].
  - intros key v ttl now w' H.
    destruct (create_inv _ _ _ _ _ H (or_introl eq_refl))
      as (_ & _ & w1 & _ & _ & -> & _).
    reflexivity.
  - intros key now v w' H. unfold read in H. unfold bind at 1 in H.
    destruct (_clean_expired_keys now w) as [[[]|e] w1] eqn:Hc; [|discriminate].
    apply clean_Ok_synced in Hc.
    unfold read_locked, bind, get_world in H.
    destruct (dict_get key (store w1)); [|discriminate].
    now injection H as _ <-.
  - intros key now w' H. unfold delete in H. unfold bind at 1 in H.
    destruct (_clean_expired_keys now w) as [[[]|e] w1]; [|discriminate].
    unfold delete_locked in H. unfold bind at 1, get_world at 1 in H.
    destruct (negb (dict_mem key (store w1))); [discriminate|].
    unfold bind at 1 in H.
    destruct (del_store key w1) as [[[]|e] w2]; [|discriminate].
    unfold bind at 1 in H.
    match type of H with
    | match ?c with _ => _ end = _ =>
        destruct c as [[[]|e] w3]; [|discriminate]
    end.
    injection H as <-. reflexivity.
  - intros items ttl now w' H. unfold batch_create in H.
    destruct (100 <? length items); [discriminate|].
    unfold bind at 1 in H.
    destruct (_clean_expired_keys now w) as [[[]|e] w1]; [|discriminate].
    unfold batch_locked in H. unfold bind at 1 in H.
    destruct (for_each items (batch_item ttl now) w1) as [[[]|e] w2];
      [|discriminate].
    unfold bind at 1 in H. cbn [_save_store modify] in H.
    rewrite (check_file_size_spec (with_file (Some (snapshot w2)) w2) eq_refl)
      in H.
    injection H as _ <-. reflexivity.
Qed.

End Synced.

(** ** JSON documents *)

Section PlainJson.

Import PyJson.

Lemma dict_set_fresh {V} k (v : V) (d : dict V) :
  ~ In k (keys d) -> dict_set k v d = d ++ [(k, v)].
Proof.
  induction d as [|[k0 v0] r IH]; cbn; intros Hn; [reflexivity|].
  destruct (String.eqb_spec k k0) as [->|Hne]; [tauto|].
  f_equal. apply IH. tauto.
Qed.

Lemma pairs_onto {V} (l : list (string * V)) : forall acc,
  NoDup (keys acc ++ keys l) ->
  fold_left (fun d kv => dict_set (fst kv) (snd kv) d) l acc = acc ++ l.
Proof.
  induction l as [|[k v] l IH]; intros acc Hnd; cbn [fold_left].
  - now rewrite app_nil_r.
  - cbn [fst snd]. rewrite dict_set_fresh.
    + rewrite IH.
      * now rewrite <- app_assoc.
      * unfold keys in *. rewrite map_app, <- app_assoc. exact Hnd.
    + apply NoDup_remove_2 in Hnd. intros Hin. apply Hnd.
      apply in_or_app. now left.
Qed.

(** [dict(pairs)] of pairs with different keys is the list of the pairs. *)
Lemma dict_of_pairs_distinct {V} (l : list (string * V)) :
  distinct (keys l) = true -> dict_of_pairs l = l.
Proof.
  intros H. unfold dict_of_pairs. rewrite pairs_onto; [reflexivity|].
  cbn. now apply distinct_NoDup.
Qed.

(** JSON proper comes back from [json.loads(json.dumps(_))] as it is. *)
Lemma plain_loads : forall j, plain j = true -> loads j = j.
Proof.
  fix IH 1. intros [ | b | n | s | l | l | d] H; cbn in H |- *;
    try reflexivity; try discriminate.
  - f_equal. induction l as [|x l IHl]; [reflexivity|].
    cbn in H |- *. apply andb_true_iff in H as [Hx Hl].
    rewrite (IH x Hx), (IHl Hl). reflexivity.
  - apply andb_true_iff in H as [Hall Hd].
    assert (map (fun kv => (key_text (fst kv), loads (snd kv))) d
            = map (fun kv => (key_text (fst kv), snd kv)) d) as E.
    { clear Hd. induction d as [|[k v] d IHd]; [reflexivity|].
      cbn in Hall |- *. apply andb_true_iff in Hall as [Hkv Hall].
      apply andb_true_iff in Hkv as [_ Hv].
      rewrite (IH v Hv), (IHd Hall). reflexivity. }
    assert (map (fun kv : string * json => (KStr (fst kv), snd kv))
              (map (fun kv => (key_text (fst kv), snd kv)) d) = d) as E2.
    { clear E Hd. induction d as [|[k v] d IHd]; [reflexivity|].
      cbn in Hall |- *. apply andb_true_iff in Hall as [Hkv Hall].
      apply andb_true_iff in Hkv as [Hk _].
      destruct k; try discriminate. rewrite (IHd Hall). reflexivity. }
    rewrite E. rewrite dict_of_pairs_distinct.
    + unfold object_of. now rewrite E2.
    + unfold keys. rewrite map_map. exact Hd.
Qed.

Lemma plain_json_document j : plain j = true -> json_document j.
Proof. apply plain_loads. Qed.

End PlainJson.

(** ** Runs on JSON documents *)

Section Runs.

Import PyJson.
Local Open Scope string_scope.
Local Open Scope Z_scope.
#[local] Set Warnings "-abstract-large-number".

Lemma create_then_read_witness :
  fst (read "key1" 0 with_key1) = Ok ram /\
  (store_ok fresh -> forall now', fst (read "key1" now' with_key1) = Ok ram).
Proof.
  apply (@create_then_read _ _ "key1" ram 0 fresh with_key1). reflexivity.
Defined.

(** C2 as stated fails: [create('k', (1, 2))] returns and saves, and the
    engine constructed on the file holds the list [[1, 2]] where the first
    one holds the tuple, so that the two mappings differ and [read('k')]
    does not return the same value; likewise [{1: 'x'}] comes back as
    [{'1': 'x'}]. *)
Lemma restart_counterexample :
  create "k" (JTuple [JInt 1; JInt 2]) None 0 fresh = (Ok tt, with_tuple) /\
  fst (__init__ (file (snd (_save_store with_tuple))) 4096%N) = Ok tt /\
  fst (read "k" 0 with_tuple) = Ok (JTuple [JInt 1; JInt 2]) /\
  fst (read "k" 0
         (snd (__init__ (file (snd (_save_store with_tuple))) 4096%N)))
    = Ok (JList [JInt 1; JInt 2]) /\
  store (snd (__init__ (file (snd (_save_store with_tuple))) 4096%N))
    <> store with_tuple /\
  create "k" (JDict [(KInt 1, JStr "x")]) None 0 fresh = (Ok tt, with_int_key) /\
  fst (read "k" 0 with_int_key) = Ok (JDict [(KInt 1, JStr "x")]) /\
  fst (read "k" 0
         (snd (__init__ (file (snd (_save_store with_int_key))) 4096%N)))
    = Ok (JDict [(KStr "1", JStr "x")]).
Proof.
  split; [reflexivity|]. split; [reflexivity|]. split; [reflexivity|].
  split; [reflexivity|]. split; [vm_compute; discriminate|].
  split; [reflexivity|]. split; reflexivity.
Qed.

Lemma restart_json_image_witness :
  exists w2,
    __init__ (file (snd (_save_store with_key1))) 4096%N = (Ok tt, w2) /\
    store w2 = store with_key1 /\
    ttl_store w2 = ttl_store with_key1 /\
    fst (read "key1" 7 w2) = fst (read "key1" 7 with_key1).
Proof.
  destruct (@restart_json_image json _ with_key1 4096%N)
    as (w2 & Hi & _ & Ht & _ & _ & Hdoc).
  destruct Hdoc as [Hs Hr].
  - intros k v [[= <- <-]|[]]. apply plain_json_document. reflexivity.
  - exists w2. split; [exact Hi|]. split; [exact Hs|]. split; [exact Ht|].
    apply Hr.
Defined.

(** The script of the client, then a restart on the file it left. *)
Example client_restart :
  exists w2,
    __init__ (file with_key1) 4096%N = (Ok tt, w2) /\
    fst (read "key1" 1 w2) = Ok ram.
Proof. eexists. split; reflexivity. Qed.

(** C3 as stated fails twice: an entry created at 10 with [ttl=5] still
    reads at the instant 15 of its expiry, and indeed expires after it; and
    [ttl=0] records no expiry at all, so that the entry reads at any later
    instant. *)
Lemma ttl_expiry_counterexample :
  fst (create "key1" ram (Some 5) 10 fresh) = Ok tt /\
  dict_get "key1" (ttl_store with_ttl5) = Some 15 /\
  fst (read "key1" 15 with_ttl5) = Ok ram /\
  fst (read "key1" 16 with_ttl5) = Raise KeyError_not_found /\
  fst (create "key1" ram (Some 0) 10 fresh) = Ok tt /\
  dict_get "key1" (ttl_store with_ttl0) = None /\
  fst (read "key1" 1000 with_ttl0) = Ok ram.
Proof. repeat split. Qed.

Lemma ttl_expiry_strict_witness :
  dict_get "key1" (ttl_store with_ttl5) = Some (10 + 5) /\
  (forall now', 10 + 5 < now' ->
     fst (read "key1" now' with_ttl5) = Raise KeyError_not_found) /\
  (forall now', now' <= 10 + 5 -> fst (read "key1" now' with_ttl5) = Ok ram).
Proof.
  destruct (@ttl_expiry_strict _ _ "key1" ram 5 10 fresh with_ttl5)
    as (He & _ & Hok).
  - discriminate.
  - reflexivity.
  - split; [exact He|]. apply Hok. apply store_okb_sound. reflexivity.
Defined.

(** C4 as stated fails: in [stale] the entry [old] is expired at instant 10,
    and it is still there after a [create] with a key of 33 characters, after
    a [create] with a value of 16385 bytes and after a [batch_create] of 101
    items, which all raise on the untouched state; a [read] at the same
    instant evicts it. *)
Lemma sweep_placement_counterexample :
  _is_key_expired 10 "old" stale = true /\
  create (letters 33) ram None 10 stale = (Raise ValueError_key_length, stale) /\
  create "k" (JStr (letters 16383)) None 10 stale =
    (Raise ValueError_value_size, stale) /\
  batch_create (batch_of 101) None 10 stale =
    (Raise ValueError_batch_size, stale) /\
  dict_get "old" (store stale) = Some ram /\
  dict_get "old" (store (snd (read "k" 10 stale))) = None.
Proof. repeat split; vm_compute; reflexivity. Qed.

Lemma sweep_placement_witness :
  dict_get "old" (store (snd (read "k" 10 stale))) = None /\
  dict_get "old" (store (snd (delete "k" 10 stale))) = None /\
  dict_get "old" (store (snd (create "k" ram None 10 stale))) = None /\
  dict_get "old" (store (snd (batch_create cities None 10 stale))) = None /\
  create (letters 33) ram None 10 stale = (Raise ValueError_key_length, stale) /\
  batch_create (batch_of 101) None 10 stale =
    (Raise ValueError_batch_size, stale).
Proof.
  assert (store_ok stale) as Hok by (apply store_okb_sound; reflexivity).
  assert (_is_key_expired 10 "old" stale = true) as Hexp by reflexivity.
  destruct (sweep_placement 10 "old" Hok Hexp)
    as (Hr & Hd & Hc & Hb & Hk & _ & Hn & _).
  split; [apply Hr|]. split; [apply Hd|].
  split; [apply Hc; [vm_compute; lia | vm_compute; lia | discriminate]|].
  split; [apply Hb; [vm_compute; lia | vm_compute; intuition discriminate]|].
  split; [apply Hk; vm_compute; lia|].
  apply Hn. vm_compute. lia.
Defined.

Lemma ttl_subset_preserved_witness :
  ttl_subset (snd (create "key1" ram (Some 10) 0 fresh)) /\
  ttl_subset (snd (read "key1" 11 with_ttl5)) /\
  ttl_subset (snd (delete "key1" 0 with_ttl5)) /\
  ttl_subset (snd (batch_create clashing (Some 120) 50 with_key1)).
Proof.
  assert (forall w : world json, store_okb w = true -> ttl_subset w) as Hsub.
  { intros w H. now apply store_okb_sound in H as (_ & _ & H). }
  destruct (ttl_subset_preserved (Hsub fresh eq_refl)) as (Hc & _).
  destruct (ttl_subset_preserved (Hsub with_ttl5 eq_refl)) as (_ & Hr & Hd & _).
  destruct (ttl_subset_preserved (Hsub with_key1 eq_refl)) as (_ & _ & _ & Hb).
  split; [exact (Hc "key1" ram (Some 10) 0)|].
  split; [exact (Hr "key1" 11)|].
  split; [exact (Hd "key1" 0)|].
  exact (Hb clashing (Some 120) 50).
Defined.

(** C6 as stated fails: [create] accepts the empty key, which is then a key
    of the store of length 0. *)
Lemma key_length_counterexample :
  fst (create "" ram None 0 fresh) = Ok tt /\
  dict_mem "" (store (snd (create "" ram None 0 fresh))) = true /\
  fst (batch_create [("", ram)] None 0 fresh) = Ok tt /\
  dict_mem "" (store (snd (batch_create [("", ram)] None 0 fresh))) = true /\
  String.length "" = 0%nat.
Proof. repeat split. Qed.

Lemma key_length_bound_witness :
  keys_bounded (snd (create "key2" ram None 0 with_key1)) /\
  create (letters 33) ram None 0 with_key1 =
    (Raise ValueError_key_length, with_key1) /\
  exists e,
    fst (batch_create [("key2", ram); (letters 33, ram)] None 0 with_key1)
    = Raise e.
Proof.
  assert (keys_bounded with_key1) as Hb.
  { intros k [<-|[]]. vm_compute. lia. }
  destruct (key_length_bound Hb) as (Hc & _ & _ & _ & Hk & _ & He).
  split; [apply Hc|]. split; [apply Hk; vm_compute; lia|].
  apply (He _ None 0 (letters 33) ram); [right; left; reflexivity|].
  vm_compute. lia.
Defined.

Lemma batch_too_large_witness :
  batch_create (batch_of 101) (Some 120) 0 with_key1 =
  (Raise ValueError_batch_size, with_key1).
Proof.
  apply (batch_too_large (batch_of 101) (Some 120) 0 with_key1).
  vm_compute. lia.
Defined.

Lemma batch_abort_keeps_prefix_witness :
  exists w',
    batch_create clashing (Some 120) 50 with_key1 = (Raise KeyError_exists, w') /\
    item_error KeyError_exists /\
    forall k v,
      In (k, v) [("key2", JDict [(KStr "city", JStr "Bengalore")])] ->
      entry_applied (Some 120) 50 k v w'.
Proof.
  apply (batch_abort_keeps_prefix (Some 120) 50
           [("key2", JDict [(KStr "city", JStr "Bengalore")])]
           ("key1", JNull)
           [("key3", JDict [(KStr "city", JStr "Hydrabad")])]
           with_key1
           (w1:=snd (_clean_expired_keys 50 with_key1))
           (w2:=snd (for_each [("key2", JDict [(KStr "city", JStr "Bengalore")])]
                       (batch_item (Some 120) 50)
                       (snd (_clean_expired_keys 50 with_key1))))
           (w3:=snd (for_each [("key2", JDict [(KStr "city", JStr "Bengalore")])]
                       (batch_item (Some 120) 50)
                       (snd (_clean_expired_keys 50 with_key1))))).
  - vm_compute. lia.
  - reflexivity.
  - reflexivity.
  - reflexivity.
Defined.


Lemma batch_abort_not_persisted_witness :
  file (snd (batch_create clashing (Some 120) 50 with_key1)) =
    Some (snapshot with_key1) /\
  dict_get "key2" (store (snd (batch_create clashing (Some 120) 50 with_key1)))
    = Some (JDict [(KStr "city", JStr "Bengalore")]) /\
  ~ file_synced (snd (batch_create clashing (Some 120) 50 with_key1)).
Proof.
  destruct (batch_abort_not_persisted (Some 120) 50
           [("key2", JDict [(KStr "city", JStr "Bengalore")])]
           ("key1", JNull)
           [("key3", JDict [(KStr "city", JStr "Hydrabad")])]
           with_key1 (e:=KeyError_exists)
           (w1:=snd (_clean_expired_keys 50 with_key1))
           (w2:=snd (for_each [("key2", JDict [(KStr "city", JStr "Bengalore")])]
                       (batch_item (Some 120) 50)
                       (snd (_clean_expired_keys 50 with_key1))))
           (w3:=snd (for_each [("key2", JDict [(KStr "city", JStr "Bengalore")])]
                       (batch_item (Some 120) 50)
                       (snd (_clean_expired_keys 50 with_key1)))))
    as (Hf & Hm & Hn & _).
  - vm_compute. lia.
  - reflexivity.
  - reflexivity.
  - reflexivity.
  - split; [exact Hf|]. split.
    + apply (Hm "key2"). left. reflexivity.
    + apply Hn. discriminate.
Defined.

End Runs.

(** * Further properties of the engine *)

(** ** The life of a key: create, read, delete *)

Section Lifecycle.

Context {value : Type} {ser : Serializer value}.
Implicit Types (w : world value) (k key : string) (v : value) (now : Z).

Notation "x <- c ;; k" := (bind c (fun x => k))
  (at level 61, c at next level, right associativity).
Notation "c ;; k" := (bind c (fun _ => k))
  (at level 61, right associativity).

Lemma dict_remove_absent {V} k (d : dict V) :
  ~ In k (keys d) -> dict_remove k d = d.
Proof.
  unfold dict_remove. induction d as [|[k0 v0] r IH]; cbn; intros Hn.
  - reflexivity.
  - destruct (String.eqb_spec k k0) as [->|Hne]; [tauto|].
    cbn. f_equal. apply IH. tauto.
Qed.

Lemma dict_mem_get_Some {V} k (d : dict V) x :
  dict_get k d = Some x -> dict_mem k d = true.
Proof. unfold dict_mem. now intros ->. Qed.

Lemma dict_mem_get_None {V} k (d : dict V) :
  dict_get k d = None -> dict_mem k d = false.
Proof. unfold dict_mem. now intros ->. Qed.

(** A key that the sweep leaves absent is absent or expired, and conversely. *)
Lemma swept_absent now w key :
  dict_get key (store (swept now w)) = None <->
  dict_get key (store w) = None \/ _is_key_expired now key w = true.
Proof.
  rewrite swept_store_get.
  destruct (_is_key_expired now key w); intuition congruence.
Qed.

(** [create] of valid arguments on a well-formed store, the key being free
    once the sweep is done. *)
Lemma create_fresh_spec key v ttl now w :
  store_ok w ->
  String.length key <= 32 ->
  dumps_len v <= 16 * 1024 ->
  dict_get key (store (swept now w)) = None ->
  create key v ttl now w =
  ((if (max_file_size w <?
        getsize (snapshot (created key v ttl now (swept now w))))%N
    then Raise MemoryError_file_size else Ok tt),
   created key v ttl now (swept now w)).
Proof.
  intros Hok Hk Hv Hfree. unfold create.
  destruct (Nat.ltb_spec 32 (String.length key)); [lia|].
  destruct (Nat.ltb_spec (16 * 1024) (dumps_len v)); [lia|].
  rewrite (bind_ok _ _ _ (clean_ok now Hok)).
  unfold create_locked. unfold bind at 1. unfold get_world at 1.
  rewrite (dict_mem_get_None _ _ Hfree).
  unfold bind at 1. rewrite insert_entry_spec.
  unfold bind at 1. cbn [_save_store modify].
  rewrite (check_file_size_spec
             (with_file (Some (snapshot (inserted key v ttl now (swept now w))))
                (inserted key v ttl now (swept now w))) eq_refl).
  reflexivity.
Qed.

(** [delete] on a well-formed store, the key being there once the sweep is
    done. *)
Lemma delete_present_spec key now w v0 :
  store_ok w ->
  dict_get key (store (swept now w)) = Some v0 ->
  delete key now w = (Ok tt, deleted key (swept now w)).
Proof.
  intros Hok Hget. unfold delete.
  rewrite (bind_ok _ _ _ (clean_ok now Hok)).
  set (w1 := swept now w) in *.
  unfold delete_locked. unfold bind at 1. unfold get_world at 1.
  rewrite (dict_mem_get_Some _ _ Hget). cbn [negb].
  unfold bind at 1.
  rewrite (del_store_present _ _ (dict_get_In_keys _ _ Hget)).
  unfold bind at 1. unfold bind at 1. unfold get_world at 1.
  set (w2 := with_store (dict_remove key (store w1)) w1).
  destruct (dict_mem key (ttl_store w2)) eqn:Ht.
  - apply dict_mem_In in Ht. rewrite (del_ttl_store_present _ _ Ht).
    reflexivity.
  - apply dict_mem_false in Ht. unfold deleted.
    change (ttl_store w2) with (ttl_store w1) in Ht.
    rewrite (dict_remove_absent _ _ Ht). reflexivity.
Qed.

Lemma deleted_ok key w : store_ok w -> store_ok (deleted key w).
Proof.
  intros (Hs & Ht & Hsub).
  unfold store_ok, ttl_subset, deleted. cbn [store ttl_store].
  split; [now apply dict_remove_wf|]. split; [now apply dict_remove_wf|].
  intros k. rewrite !keys_remove. intros [Hne Hk]. auto.
Qed.

(** X1.  On a well-formed store, [create] with valid arguments of a key that
    is there and not expired raises the KeyError of a duplicate; memory is
    what the sweep left, and the key keeps the value it had. *)
Theorem create_duplicate_rejected key v v0 ttl now w :
  store_ok w ->
  String.length key <= 32 ->
  dumps_len v <= 16 * 1024 ->
  dict_get key (store w) = Some v0 ->
  _is_key_expired now key w = false ->
  create key v ttl now w = (Raise KeyError_exists, swept now w) /\
  fst (read key now (snd (create key v ttl now w))) = Ok v0.
Proof.
  intros Hok Hk Hv Hget Hexp.
  assert (dict_get key (store (swept now w)) = Some v0) as Hget1
    by (rewrite swept_store_get, Hexp; exact Hget).
  assert (create key v ttl now w = (Raise KeyError_exists, swept now w)) as Hc.
  { unfold create.
    destruct (Nat.ltb_spec 32 (String.length key)); [lia|].
    destruct (Nat.ltb_spec (16 * 1024) (dumps_len v)); [lia|].
    rewrite (bind_ok _ _ _ (clean_ok now Hok)).
    unfold create_locked, bind, get_world.
    now rewrite (dict_mem_get_Some _ _ Hget1). }
  split; [exact Hc|]. rewrite Hc. cbn [snd].
  rewrite read_nothing_expired by apply swept_no_expired.
  now rewrite Hget1.
Qed.

(** X2.  On a well-formed store, [read] and [delete] of a key that is absent,
    or present but expired at that instant, raise the KeyError of a missing
    key; [delete] then changes nothing beyond the sweep both perform. *)
Theorem missing_key_not_found key now w :
  store_ok w ->
  dict_get key (store w) = None \/ _is_key_expired now key w = true ->
  read key now w = (Raise KeyError_not_found, swept now w) /\
  delete key now w = (Raise KeyError_not_found, swept now w).
Proof.
  intros Hok Habs. apply swept_absent in Habs. split.
  - rewrite (read_spec _ _ Hok). now rewrite Habs.
  - unfold delete. rewrite (bind_ok _ _ _ (clean_ok now Hok)).
    unfold delete_locked, bind, get_world.
    now rewrite (dict_mem_get_None _ _ Habs).
Qed.

(** X3.  On a well-formed store, [delete] of a key that is there and not
    expired returns; the key is then in neither mapping, every other key has
    in both mappings what the sweep left it, the file is a copy of memory,
    the store is well formed, and [read] of the key raises the KeyError of a
    missing key at every instant. *)
Theorem delete_removes_entry key v0 now w :
  store_ok w ->
  dict_get key (store w) = Some v0 ->
  _is_key_expired now key w = false ->
  exists w',
    delete key now w = (Ok tt, w') /\
    dict_get key (store w') = None /\
    dict_get key (ttl_store w') = None /\
    (forall k, k <> key ->
       dict_get k (store w') = dict_get k (store (swept now w)) /\
       dict_get k (ttl_store w') = dict_get k (ttl_store (swept now w))) /\
    file_synced w' /\
    store_ok w' /\
    forall now', fst (read key now' w') = Raise KeyError_not_found.
Proof.
  intros Hok Hget Hexp.
  assert (dict_get key (store (swept now w)) = Some v0) as Hget1
    by (rewrite swept_store_get, Hexp; exact Hget).
  exists (deleted key (swept now w)).
  pose proof (deleted_ok key (swept_ok now Hok)) as Hok'.
  assert (dict_get key (store (deleted key (swept now w))) = None) as Hgone
    by (unfold deleted; cbn [store]; apply dict_get_remove_eq).
  split; [eapply delete_present_spec; eauto|].
  split; [exact Hgone|].
  split; [unfold deleted; cbn [ttl_store]; apply dict_get_remove_eq|].
  split.
  { intros k Hne. unfold deleted. cbn [store ttl_store].
    split; apply dict_get_remove_ne; congruence. }
  split; [reflexivity|]. split; [exact Hok'|].
  intros now'. rewrite (read_spec _ _ Hok'). cbn [fst].
  rewrite swept_store_get, Hgone.
  now destruct (_is_key_expired now' key (deleted key (swept now w))).
Qed.

(** X4.  On a well-formed store a key that is absent, or expired at that
    instant, can be created (again): [create] with valid arguments does not
    raise the duplicate error, it returns unless the size check fails, and
    either way the new value is what [read] returns at once when the TTL is
    absent, zero or positive; the other keys have what the sweep left.  The
    TTL, an integer, is one that the conversion to a float accepts: beyond,
    the sum of line 79 raises once the value is in memory. *)
Theorem create_free_key key v ttl now w :
  store_ok w ->
  String.length key <= 32 ->
  dumps_len v <= 16 * 1024 ->
  ttl_convertible ttl ->
  dict_get key (store w) = None \/ _is_key_expired now key w = true ->
  exists r w',
    create key v ttl now w = (r, w') /\
    (r = Ok tt \/ r = Raise MemoryError_file_size) /\
    entry_applied ttl now key v w' /\
    store_ok w' /\
    (forall k, k <> key ->
       dict_get k (store w') = dict_get k (store (swept now w))) /\
    ((0 <= ttl_seconds ttl)%Z -> fst (read key now w') = Ok v).
Proof.
  intros Hok Hk Hv _ Habs. apply swept_absent in Habs.
  pose proof (swept_ok now Hok) as Hok1.
  pose proof (created_ok key v ttl now Hok1) as Hokc.
  set (wc := created key v ttl now (swept now w)) in *.
  assert (dict_get key (store wc) = Some v) as Hget
    by (unfold wc, created; cbn [store]; apply dict_get_set_eq).
  eexists _, wc. split; [now apply create_fresh_spec|].
  split; [destruct (_ <? _)%N; auto|].
  split.
  { split; [exact Hget|]. intros Htr. unfold wc, created. rewrite Htr.
    cbn [ttl_store]. apply dict_get_set_eq. }
  split; [exact Hokc|]. split.
  { intros k Hne. unfold wc, created. cbn [store].
    apply dict_get_set_ne. congruence. }
  intros Hpos. rewrite (read_spec _ _ Hokc). cbn [fst].
  rewrite swept_store_get, Hget.
  assert (_is_key_expired now key wc = false) as ->; [|reflexivity].
  unfold _is_key_expired, wc, created. cbn [ttl_store].
  destruct (truthy ttl).
  - rewrite dict_get_set_eq.
    destruct (Z.ltb_spec (now + ttl_seconds ttl) now); [lia|reflexivity].
  - destruct Hok1 as (_ & _ & Hsub).
    destruct (dict_get key (ttl_store (swept now w))) eqn:E; [|reflexivity].
    apply dict_get_In_keys, Hsub in E.
    apply dict_get_None in Habs. contradiction.
Qed.

End Lifecycle.

(** ** The sweep *)

Section Sweep.

Context {value : Type} {ser : Serializer value}.
Implicit Types (w : world value) (k key : string) (v : value) (now : Z).

Notation "x <- c ;; k" := (bind c (fun x => k))
  (at level 61, c at next level, right associativity).
Notation "c ;; k" := (bind c (fun _ => k))
  (at level 61, right associativity).

(** X5.  On a well-formed store the sweep returns: it removes from both
    mappings the keys whose expiry is strictly before [now] and no other,
    leaves nothing that is expired at [now], saves the result, and the store
    it leaves is well formed. *)
Theorem sweep_exact now w :
  store_ok w ->
  exists w',
    _clean_expired_keys now w = (Ok tt, w') /\
    (forall k, dict_get k (store w') =
               if _is_key_expired now k w then None else dict_get k (store w)) /\
    (forall k, dict_get k (ttl_store w') =
               if _is_key_expired now k w then None
               else dict_get k (ttl_store w)) /\
    expired_keys now w' = [] /\
    file_synced w' /\
    store_ok w'.
Proof.
  intros Hok. exists (swept now w).
  split; [now apply clean_ok|].
  split; [intros k; apply swept_store_get|].
  split; [intros k; apply swept_ttl_get|].
  split; [apply swept_no_expired|].
  split; [reflexivity | now apply swept_ok].
Qed.

(** A sweep that returns found a value for every expired key. *)
Lemma sweep_loop_Ok_present (l : list string) : forall w w1,
  for_each l (fun key => del_store key ;; del_ttl_store key) w = (Ok tt, w1) ->
  forall k, In k l -> In k (keys (store w)).
Proof.
  induction l as [|x l IH]; intros w w1 H k Hk; [contradiction|].
  cbn [for_each] in H. unfold bind at 1 in H.
  destruct ((del_store x ;; del_ttl_store x) w) as [[[]|e] w2] eqn:Hb;
    [|discriminate].
  unfold bind in Hb.
  destruct (in_dec string_dec x (keys (store w))) as [Hs|Hs];
    [|rewrite (del_store_absent _ _ Hs) in Hb; discriminate].
  destruct Hk as [<-|Hk]; [exact Hs|].
  rewrite (del_store_present _ _ Hs) in Hb.
  destruct (in_dec string_dec x
              (keys (ttl_store (with_store (dict_remove x (store w)) w))))
    as [Ht|Ht];
    [|rewrite (del_ttl_store_absent _ _ Ht) in Hb; discriminate].
  rewrite (del_ttl_store_present _ _ Ht) in Hb. injection Hb as <-.
  specialize (IH _ _ H k Hk). revert IH. fields. rewrite keys_remove. tauto.
Qed.

Lemma sweep_step_keeps_file key (f : option (file_content value)) :
  preserves (fun w => file w = f) (del_store key ;; del_ttl_store key).
Proof.
  apply preserves_bind; [|intros _].
  - intros w Hw. unfold del_store, bind, get_world.
    destruct (dict_del key (store w)); exact Hw.
  - intros w Hw. unfold del_ttl_store, bind, get_world.
    destruct (dict_del key (ttl_store w)); exact Hw.
Qed.

(** The sweep when an expired key has no value. *)
Lemma clean_missing_value now w k :
  In k (expired_keys now w) ->
  ~ In k (keys (store w)) ->
  exists k' w',
    _clean_expired_keys now w = (Raise (KeyError_del k'), w') /\
    file w' = file w.
Proof.
  intros Hexp Hmiss.
  unfold _clean_expired_keys, bind, get_world.
  pose proof (@preserves_for_each _ _ (fun w0 => file w0 = file w)
                (expired_keys now w)
                (fun key => del_store key ;; del_ttl_store key)
                (fun x _ => @sweep_step_keeps_file x (file w)) w eq_refl) as Hf.
  destruct (for_each _ _ w) as [[[]|e] w2] eqn:Hl.
  - exfalso. apply Hmiss. eapply sweep_loop_Ok_present; eauto.
  - destruct (sweep_loop_raise _ _ Hl) as [k' ->].
    exists k', w2. split; [reflexivity | exact Hf].
Qed.

(** X6.  When some key is expired at [now] and has an expiry but no value (a
    state that only a hand-written file gives), the sweep raises the bare
    KeyError of its [del], and so do [read], [delete], a [create] with valid
    arguments and a [batch_create] of at most 100 items, all with the same
    exception and the same state, in which the file has not been written. *)
Theorem sweep_missing_value_raises now w k :
  In k (expired_keys now w) ->
  ~ In k (keys (store w)) ->
  exists k' w',
    file w' = file w /\
    (forall key, read key now w = (Raise (KeyError_del k'), w')) /\
    (forall key, delete key now w = (Raise (KeyError_del k'), w')) /\
    (forall key v ttl,
       String.length key <= 32 -> dumps_len v <= 16 * 1024 ->
       create key v ttl now w = (Raise (KeyError_del k'), w')) /\
    (forall (items : dict value) ttl,
       length items <= 100 ->
       batch_create items ttl now w = (Raise (KeyError_del k'), w')).
Proof.
  intros Hexp Hmiss.
  destruct (clean_missing_value _ _ _ Hexp Hmiss) as (k' & w' & Hc & Hf).
  exists k', w'. split; [exact Hf|].
  split; [|split; [|split]].
  - intros key. unfold read. apply bind_raise. exact Hc.
  - intros key. unfold delete. apply bind_raise. exact Hc.
  - intros key v ttl Hk Hv. unfold create.
    destruct (Nat.ltb_spec 32 (String.length key)); [lia|].
    destruct (Nat.ltb_spec (16 * 1024) (dumps_len v)); [lia|].
    apply bind_raise. exact Hc.
  - intros items ttl Hlen. unfold batch_create.
    destruct (Nat.ltb_spec 100 (length items)); [lia|].
    apply bind_raise. exact Hc.
Qed.

Lemma expired_monotone now1 now2 k w :
  (now1 <= now2)%Z ->
  _is_key_expired now1 k w = true -> _is_key_expired now2 k w = true.
Proof.
  unfold _is_key_expired. intros Hle.
  destruct (dict_get k (ttl_store w)) as [e|]; [|discriminate].
  rewrite !Z.ltb_lt. lia.
Qed.

Lemma expired_after_sweep now1 now2 w k :
  _is_key_expired now2 k (swept now1 w) =
  if _is_key_expired now1 k w then false else _is_key_expired now2 k w.
Proof.
  unfold _is_key_expired at 1. rewrite swept_ttl_get.
  now destruct (_is_key_expired now1 k w).
Qed.

(** Two sweeps in a row leave, key by key, what the later one alone
    leaves. *)
Lemma swept_swept_get now1 now2 w k :
  (now1 <= now2)%Z ->
  dict_get k (store (swept now2 (swept now1 w))) =
    dict_get k (store (swept now2 w)) /\
  dict_get k (ttl_store (swept now2 (swept now1 w))) =
    dict_get k (ttl_store (swept now2 w)).
Proof.
  intros Hle.
  rewrite !swept_store_get, !swept_ttl_get, !expired_after_sweep.
  destruct (_is_key_expired now1 k w) eqn:E1.
  - now rewrite (expired_monotone k w Hle E1).
  - now destruct (_is_key_expired now2 k w).
Qed.

(** X7.  On a well-formed store, a [read] (of any key) at an earlier instant
    does not change what a [read] at a later instant returns or raises. *)
Theorem read_no_interference key key0 now1 now2 w :
  store_ok w ->
  (now1 <= now2)%Z ->
  fst (read key now2 (snd (read key0 now1 w))) = fst (read key now2 w).
Proof.
  intros Hok Hle.
  rewrite (read_spec key0 now1 Hok). cbn [snd].
  rewrite (read_spec key now2 (swept_ok now1 Hok)), (read_spec key now2 Hok).
  cbn [fst].
  now destruct (swept_swept_get w key Hle) as [-> _].
Qed.

End Sweep.

(** ** Well-formed stores stay well formed *)

Section Wellformed.

Context {value : Type} {ser : Serializer value}.
Implicit Types (w : world value) (k key : string) (v : value) (now : Z).
Implicit Types (items : dict value) (ttl : option Z).

Notation "x <- c ;; k" := (bind c (fun x => k))
  (at level 61, c at next level, right associativity).
Notation "c ;; k" := (bind c (fun _ => k))
  (at level 61, right associativity).

Lemma store_ok_on_maps : on_maps (@store_ok value).
Proof.
  intros w w' [Hs Ht] (H1 & H2 & H3). unfold store_ok, ttl_subset.
  rewrite <- Hs, <- Ht. auto.
Qed.

Lemma store_ok_clean now : preserves (@store_ok value) (_clean_expired_keys now).
Proof. intros w Hw. rewrite (clean_ok now Hw). now apply swept_ok. Qed.

Lemma inserted_ok key v ttl now w : store_ok w -> store_ok (inserted key v ttl now w).
Proof.
  intros Hw. apply (store_ok_on_maps (w:=created key v ttl now w)).
  - split; reflexivity.
  - now apply created_ok.
Qed.

Lemma store_ok_insert key v ttl now :
  preserves (@store_ok value) (insert_entry key v ttl now).
Proof. intros w Hw. rewrite insert_entry_spec. now apply inserted_ok. Qed.

Lemma store_ok_batch_item ttl now (kv : string * value) :
  preserves (@store_ok value) (batch_item ttl now kv).
Proof.
  destruct kv as [key v]. intros w Hw. rewrite batch_item_spec.
  destruct (32 <? String.length key); [exact Hw|].
  destruct (16 * 1024 <? dumps_len v); [exact Hw|].
  destruct (dict_mem key (store w)); [exact Hw|].
  now apply inserted_ok.
Qed.

Lemma store_ok_delete_locked key : preserves (@store_ok value) (delete_locked key).
Proof.
  intros w Hw. unfold delete_locked. unfold bind at 1. unfold get_world at 1.
  destruct (dict_mem key (store w)) eqn:Hm; [|exact Hw]. cbn [negb].
  apply dict_mem_In in Hm.
  unfold bind at 1. rewrite (del_store_present _ _ Hm).
  unfold bind at 1. unfold bind at 1. unfold get_world at 1.
  set (w1 := with_store (dict_remove key (store w)) w).
  apply (store_ok_on_maps (w:=deleted key w)); [|now apply deleted_ok].
  destruct (dict_mem key (ttl_store w1)) eqn:Ht.
  - apply dict_mem_In in Ht. rewrite (del_ttl_store_present _ _ Ht).
    split; reflexivity.
  - apply dict_mem_false in Ht. change (ttl_store w1) with (ttl_store w) in Ht.
    split; [reflexivity|]. fields. unfold deleted. cbn [ttl_store].
    now rewrite (dict_remove_absent _ _ Ht).
Qed.

(** X8.  Each of the four public operations, whether it returns or raises,
    leaves a well-formed store (keys unique in both mappings, every key with
    an expiry having a value) when it starts in one. *)
Theorem store_ok_preserved w :
  store_ok w ->
  (forall key v ttl now, store_ok (snd (create key v ttl now w))) /\
  (forall key now, store_ok (snd (read key now w))) /\
  (forall key now, store_ok (snd (delete key now w))) /\
  (forall items ttl now, store_ok (snd (batch_create items ttl now w))).
Proof.
  intros Hw.
  pose proof (preserves_save store_ok_on_maps) as Hsave.
  split; [|split; [|split]].
  - intros key v ttl now. revert w Hw.
    change (preserves (value:=value) store_ok (create key v ttl now)).
    unfold create.
    destruct (32 <? String.length key); [apply preserves_raise|].
    destruct (16 * 1024 <? dumps_len v); [apply preserves_raise|].
    apply preserves_bind; [apply store_ok_clean|]. intros _.
    apply preserves_with_world. intros w Hw.
    destruct (dict_mem key (store w)); [exact Hw|].
    revert w Hw. apply preserves_bind; [apply store_ok_insert|]. intros _.
    apply preserves_bind; [apply Hsave|]. intros _. apply preserves_check.
  - intros key now. rewrite (read_spec key now Hw). now apply swept_ok.
  - intros key now. revert w Hw.
    change (preserves (value:=value) store_ok (delete key now)). unfold delete.
    apply preserves_bind; [apply store_ok_clean|]. intros _.
    apply store_ok_delete_locked.
  - intros items ttl now. revert w Hw.
    change (preserves (value:=value) store_ok (batch_create items ttl now)).
    unfold batch_create.
    destruct (100 <? length items); [apply preserves_raise|].
    apply preserves_bind; [apply store_ok_clean|]. intros _.
    unfold batch_locked.
    apply preserves_bind;
      [apply preserves_for_each; intros x _; apply store_ok_batch_item|].
    intros _. apply preserves_bind; [apply Hsave|]. intros _.
    apply preserves_check.
Qed.

(** An entry without expiry reads at every instant; an expired one never. *)
Lemma permanent_entry_reads key v w :
  store_ok w ->
  dict_get key (store w) = Some v ->
  dict_get key (ttl_store w) = None ->
  forall now, fst (read key now w) = Ok v.
Proof.
  intros Hok Hs Ht now. rewrite (read_spec key now Hok). cbn [fst].
  rewrite swept_store_get. unfold _is_key_expired. now rewrite Ht, Hs.
Qed.

Lemma timed_entry_reads key v e w :
  store_ok w ->
  dict_get key (store w) = Some v ->
  dict_get key (ttl_store w) = Some e ->
  forall now,
    fst (read key now w) =
    if (e <? now)%Z then Raise KeyError_not_found else Ok v.
Proof.
  intros Hok Hs Ht now. rewrite (read_spec key now Hok). cbn [fst].
  rewrite swept_store_get. unfold _is_key_expired. rewrite Ht, Hs.
  now destruct (e <? now)%Z.
Qed.

(** What [batch_create] has done when it returns or reports the file too
    large. *)
Lemma batch_create_inv items ttl now w r w' :
  batch_create items ttl now w = (r, w') ->
  r = Ok tt \/ r = Raise MemoryError_file_size ->
  length items <= 100 /\
  exists w1 w2,
    _clean_expired_keys now w = (Ok tt, w1) /\
    for_each items (batch_item ttl now) w1 = (Ok tt, w2) /\
    w' = with_file (Some (snapshot w2)) w2 /\
    r = if (max_file_size w' <? getsize (snapshot w'))%N
        then Raise MemoryError_file_size else Ok tt.
Proof.
  intros H Hr. unfold batch_create in H.
  destruct (Nat.ltb_spec 100 (length items)) as [|Hlen].
  { injection H as <- _. destruct Hr; discriminate. }
  split; [exact Hlen|].
  unfold bind at 1 in H.
  destruct (_clean_expired_keys now w) as [[[]|e] w1] eqn:Hc.
  2:{ injection H as <- _. apply clean_raise in Hc as [k0 ->].
      destruct Hr; discriminate. }
  unfold batch_locked in H. unfold bind at 1 in H.
  destruct (for_each items (batch_item ttl now) w1) as [[[]|e] w2] eqn:Hl.
  2:{ injection H as <- _.
      apply for_each_raise_split in Hl as (l1 & x & l2 & w3 & _ & _ & Hx).
      apply batch_item_raise in Hx as [_ [Hx|[Hx|Hx]]]; subst e;
        destruct Hr; discriminate. }
  exists w1, w2. split; [reflexivity|]. split; [exact Hl|].
  unfold bind at 1 in H. cbn [_save_store modify] in H.
  rewrite (check_file_size_spec (with_file (Some (snapshot w2)) w2) eq_refl) in H.
  injection H as <- <-. split; reflexivity.
Qed.

(** A loop without TTL leaves the expiry mapping alone; with or without, it
    appends its keys to the value mapping in the order of the batch. *)
Lemma batch_loop_maps ttl now items : forall w w',
  for_each items (batch_item ttl now) w = (Ok tt, w') ->
  keys (store w') = keys (store w) ++ keys items /\
  (truthy ttl = false -> ttl_store w' = ttl_store w).
Proof.
  induction items as [|[key v] items IH]; intros w w' H.
  - injection H as <-. cbn. now rewrite app_nil_r.
  - cbn [for_each] in H. unfold bind at 1 in H.
    destruct (batch_item ttl now (key, v) w) as [[[]|e] w1] eqn:Hb;
      [|discriminate].
    apply batch_item_ok in Hb as (-> & Hfresh & _).
    apply IH in H as [Hk Ht]. split.
    + rewrite Hk. unfold inserted. cbn [store].
      rewrite keys_set_fresh by exact Hfresh. cbn [keys map fst].
      now rewrite <- app_assoc.
    + intros Hf. rewrite (Ht Hf). unfold inserted. now rewrite Hf.
Qed.

(** X9.  When [batch_create] returns on a well-formed store, every item of
    the batch reads back its value: at every instant when no TTL (or a TTL
    of zero) was given, and otherwise at every instant up to and including
    [now + ttl]. *)
Theorem batch_create_readable items ttl now w w' :
  store_ok w ->
  batch_create items ttl now w = (Ok tt, w') ->
  forall k v, In (k, v) items ->
  forall now',
    (truthy ttl = true -> (now' <= now + ttl_seconds ttl)%Z) ->
    fst (read k now' w') = Ok v.
Proof.
  intros Hok Hb k v Hin now' Hnow.
  destruct (batch_create_inv _ _ _ _ Hb (or_introl eq_refl))
    as (_ & w1 & w2 & Hc & Hl & -> & _).
  rewrite (clean_ok now Hok) in Hc. injection Hc as <-.
  pose proof (swept_ok now Hok) as Hok1.
  assert (store_ok w2) as Hok2.
  { pose proof (@preserves_for_each _ _ (@store_ok value) items
                  (batch_item ttl now)
                  (fun x _ => @store_ok_batch_item ttl now x) _ Hok1) as H.
    now rewrite Hl in H. }
  assert (store_ok (with_file (Some (snapshot w2)) w2)) as Hok'.
  { apply (store_ok_on_maps (w:=w2)); [split; reflexivity | exact Hok2]. }
  destruct (batch_loop_ok _ _ _ _ Hl) as (_ & _ & _ & Happ).
  destruct (Happ k v Hin) as [[Hs Ht] Hfresh].
  destruct (truthy ttl) eqn:Htr.
  - rewrite (timed_entry_reads (e:=(now + ttl_seconds ttl)%Z) _ Hok' Hs (Ht eq_refl)).
    destruct (Z.ltb_spec (now + ttl_seconds ttl) now'); [|reflexivity].
    specialize (Hnow eq_refl). lia.
  - apply (permanent_entry_reads _ Hok' Hs).
    fields. destruct (batch_loop_maps _ _ _ _ Hl) as [_ Hsame].
    rewrite (Hsame Htr).
    destruct Hok1 as (_ & _ & Hsub).
    destruct (dict_get k (ttl_store (swept now w))) eqn:E; [|reflexivity].
    apply dict_get_In_keys, Hsub in E. contradiction.
Qed.

Lemma batch_loop_fresh ttl now items : forall w,
  Forall item_fits items ->
  NoDup (keys items) ->
  (forall k, In k (keys items) -> ~ In k (keys (store w))) ->
  exists w', for_each items (batch_item ttl now) w = (Ok tt, w').
Proof.
  induction items as [|[key v] items IH]; intros w Hfit Hnd Hfresh.
  - now exists w.
  - inversion Hfit as [|? ? [Hk Hv] Hfit']; subst. cbn [fst snd] in Hk, Hv.
    cbn [keys map fst] in Hnd. inversion Hnd as [|? ? Hnk Hnd']; subst.
    cbn [for_each]. unfold bind at 1. rewrite batch_item_spec.
    destruct (Nat.ltb_spec 32 (String.length key)); [lia|].
    destruct (Nat.ltb_spec (16 * 1024) (dumps_len v)); [lia|].
    assert (dict_mem key (store w) = false) as ->.
    { apply dict_mem_false. apply Hfresh. now left. }
    apply IH; auto.
    intros k Hk0. unfold inserted. cbn [store]. rewrite keys_set.
    intros [->|Hin]; [contradiction|].
    revert Hin. apply Hfresh. now right.
Qed.

(** X10.  On a well-formed store, [batch_create] of at most 100 items that
    pass the two size checks, with keys that are all different and absent or
    expired, returns unless the final size check fails; either way the keys
    of the batch have been appended, in the order of the batch, to the keys
    the sweep left, and the file is a copy of memory.  The TTL, an integer,
    is one that the conversion to a float accepts: beyond, the sum of line
    137 raises on the first item. *)
Theorem batch_create_fresh items ttl now w :
  store_ok w ->
  length items <= 100 ->
  Forall item_fits items ->
  ttl_convertible ttl ->
  NoDup (keys items) ->
  (forall k, In k (keys items) ->
     dict_get k (store w) = None \/ _is_key_expired now k w = true) ->
  exists r w',
    batch_create items ttl now w = (r, w') /\
    (r = Ok tt \/ r = Raise MemoryError_file_size) /\
    keys (store w') = keys (store (swept now w)) ++ keys items /\
    (forall k v, In (k, v) items -> entry_applied ttl now k v w') /\
    file_synced w'.
Proof.
  intros Hok Hlen Hfit _ Hnd Hfree.
  destruct (@batch_loop_fresh ttl now items (swept now w) Hfit Hnd)
    as [w2 Hl].
  { intros k Hk. apply dict_get_None. apply swept_absent. now apply Hfree. }
  destruct (batch_loop_ok _ _ _ _ Hl) as (_ & _ & _ & Happ).
  destruct (batch_loop_maps _ _ _ _ Hl) as [Hkeys _].
  eexists _, (with_file (Some (snapshot w2)) w2). split.
  - unfold batch_create.
    destruct (Nat.ltb_spec 100 (length items)); [lia|].
    rewrite (bind_ok _ _ _ (clean_ok now Hok)). unfold batch_locked.
    rewrite (bind_ok _ _ _ Hl). unfold bind at 1. cbn [_save_store modify].
    apply (check_file_size_spec (with_file (Some (snapshot w2)) w2) eq_refl).
  - split; [destruct (_ <? _)%N; auto|].
    split; [exact Hkeys|]. split; [|reflexivity].
    intros k v Hin. now destruct (Happ k v Hin).
Qed.

(** X11.  The size limit is inclusive and checked after the write: a
    [create] that got as far as its size check returns exactly when the file
    it has just written is no larger than [max_file_size], a limit that the
    call leaves as it was. *)
Theorem size_limit_inclusive key v ttl now w r w' :
  create key v ttl now w = (r, w') ->
  r = Ok tt \/ r = Raise MemoryError_file_size ->
  (r = Ok tt <-> (getsize (snapshot w') <= max_file_size w')%N) /\
  file w' = Some (snapshot w') /\
  max_file_size w' = max_file_size w.
Proof.
  intros H Hr.
  destruct (create_inv _ _ _ _ _ H Hr) as (_ & _ & w1 & Hc & _ & Hw & Hres).
  apply clean_Ok_inv in Hc. subst w1.
  split; [|split; [subst w'; reflexivity | subst w'; reflexivity]].
  rewrite Hres.
  destruct (N.ltb_spec (max_file_size w') (getsize (snapshot w'))).
  - split; [discriminate | lia].
  - split; [intros _; assumption | reflexivity].
Qed.

(** X12.  A TTL of zero is no TTL: [create] and [batch_create] with [ttl=0]
    do exactly what they do without TTL, and on a well-formed store the
    entry that such a [create] leaves reads at every instant. *)
Theorem ttl_zero_is_permanent key v now w :
  create key v (Some 0%Z) now w = create key v None now w /\
  (forall items, batch_create items (Some 0%Z) now w
                 = batch_create items None now w) /\
  (store_ok w ->
   forall w', create key v (Some 0%Z) now w = (Ok tt, w') ->
   dict_get key (ttl_store w') = None /\
   forall now', fst (read key now' w') = Ok v).
Proof.
  split; [reflexivity|]. split; [reflexivity|].
  intros Hok w' Hc.
  destruct (create_inv _ _ _ _ _ Hc (or_introl eq_refl))
    as (_ & _ & w1 & Hsw & Hm & -> & _).
  apply clean_Ok_inv in Hsw. subst w1.
  pose proof (swept_ok now Hok) as Hok1.
  assert (dict_get key (ttl_store (created key v (Some 0%Z) now (swept now w)))
          = None) as Hnone.
  { unfold created. cbn [truthy Z.eqb negb ttl_store].
    apply dict_mem_false in Hm. destruct Hok1 as (_ & _ & Hsub).
    destruct (dict_get key (ttl_store (swept now w))) eqn:E; [|reflexivity].
    apply dict_get_In_keys, Hsub in E. contradiction. }
  split; [exact Hnone|].
  apply (permanent_entry_reads _ (created_ok key v (Some 0%Z) now Hok1));
    [|exact Hnone].
  unfold created. cbn [store]. apply dict_get_set_eq.
Qed.

Lemma init_synced w (max_size : N) :
  file_synced w ->
  __init__ (file w) max_size =
  (Ok tt, mkWorld max_size (dict_map loads_dumps (store w)) (ttl_store w)
            (file w)).
Proof. unfold file_synced. intros ->. reflexivity. Qed.

(** X14.  What a public call that returned leaves on disk is all of memory,
    as JSON keeps it: an engine constructed on the file right after such a
    call (with whatever size limit) holds the keys and the expiries of the
    engine that made the call, and for each value its JSON image,
    [json.loads(json.dumps(v))]. *)
Theorem restart_after_return w (max_size : N) :
  (forall key v ttl now w',
     create key v ttl now w = (Ok tt, w') ->
     fst (__init__ (file w') max_size) = Ok tt /\
     json_image (snd (__init__ (file w') max_size)) w') /\
  (forall key now v w',
     read key now w = (Ok v, w') ->
     fst (__init__ (file w') max_size) = Ok tt /\
     json_image (snd (__init__ (file w') max_size)) w') /\
  (forall key now w',
     delete key now w = (Ok tt, w') ->
     fst (__init__ (file w') max_size) = Ok tt /\
     json_image (snd (__init__ (file w') max_size)) w') /\
  (forall items ttl now w',
     batch_create items ttl now w = (Ok tt, w') ->
     fst (__init__ (file w') max_size) = Ok tt /\
     json_image (snd (__init__ (file w') max_size)) w').
Proof.
  destruct (returns_synced w) as (Hc & Hr & Hd & Hb).
  split; [|split; [|split]].
  - intros key v ttl now w' H. rewrite (init_synced max_size (Hc _ _ _ _ _ H)).
    repeat split.
  - intros key now v w' H. rewrite (init_synced max_size (Hr _ _ _ _ H)).
    repeat split.
  - intros key now w' H. rewrite (init_synced max_size (Hd _ _ _ H)).
    repeat split.
  - intros items ttl now w' H. rewrite (init_synced max_size (Hb _ _ _ _ H)).
    repeat split.
Qed.

End Wellformed.

(** ** Keys that stay *)

Section Liveness.

Context {value : Type} {ser : Serializer value}.
Implicit Types (w : world value) (k key : string) (v : value) (now : Z).

Notation "x <- c ;; k" := (bind c (fun x => k))
  (at level 61, c at next level, right associativity).
Notation "c ;; k" := (bind c (fun _ => k))
  (at level 61, right associativity).

Lemma key_live_on_maps key v0 o t : on_maps (@key_live value key v0 o t).
Proof. intros w w' [Hs Ht]. unfold key_live. now rewrite <- Hs, <- Ht. Qed.

Lemma key_live_not_expired key v0 o t now w :
  key_live key v0 o t w -> (now <= t)%Z -> _is_key_expired now key w = false.
Proof.
  intros (_ & Ho & Hl) Hle. unfold _is_key_expired. rewrite Ho.
  destruct o as [e|]; [|reflexivity].
  specialize (Hl e eq_refl). apply Z.ltb_ge. lia.
Qed.

Lemma key_live_remove key v0 o t x w :
  x <> key -> key_live key v0 o t w ->
  key_live key v0 o t (with_store (dict_remove x (store w)) w) /\
  key_live key v0 o t (with_ttl_store (dict_remove x (ttl_store w)) w).
Proof.
  intros Hne (Hs & Ho & Hl). unfold key_live. fields.
  rewrite !dict_get_remove_ne by exact Hne. auto.
Qed.

Lemma key_live_sweep_step key v0 o t x :
  x <> key ->
  preserves (@key_live value key v0 o t) (del_store x ;; del_ttl_store x).
Proof.
  intros Hne. apply preserves_bind; [|intros _].
  - intros w Hw. unfold del_store, bind, get_world, dict_del.
    destruct (dict_mem x (store w)); [|exact Hw].
    now apply key_live_remove.
  - intros w Hw. unfold del_ttl_store, bind, get_world, dict_del.
    destruct (dict_mem x (ttl_store w)); [|exact Hw].
    now apply key_live_remove.
Qed.

(** A sweep, finished or not, keeps the keys that are not expired. *)
Lemma key_live_clean key v0 o t now :
  (now <= t)%Z -> preserves (@key_live value key v0 o t) (_clean_expired_keys now).
Proof.
  intros Hle. unfold _clean_expired_keys.
  apply preserves_with_world. intros w Hw.
  apply preserves_bind;
    [|intros _; apply preserves_save, key_live_on_maps|exact Hw].
  apply preserves_for_each. intros x Hx.
  apply key_live_sweep_step. intros ->.
  apply expired_keys_In in Hx.
  rewrite (key_live_not_expired Hw Hle) in Hx. discriminate.
Qed.

Lemma key_live_insert key v0 o t x v ttl now :
  x <> key -> preserves (@key_live value key v0 o t) (insert_entry x v ttl now).
Proof.
  intros Hne w (Hs & Ho & Hl). rewrite insert_entry_spec.
  unfold key_live, inserted. cbn [snd store ttl_store].
  rewrite dict_get_set_ne by exact Hne. split; [exact Hs|]. split; [|exact Hl].
  destruct (truthy ttl); [rewrite dict_get_set_ne by exact Hne|]; exact Ho.
Qed.

Lemma key_live_create key v0 o t x v ttl now :
  x <> key -> (now <= t)%Z ->
  preserves (@key_live value key v0 o t) (create x v ttl now).
Proof.
  intros Hne Hle. unfold create.
  destruct (32 <? String.length x); [apply preserves_raise|].
  destruct (16 * 1024 <? dumps_len v); [apply preserves_raise|].
  apply preserves_bind; [now apply key_live_clean|]. intros _.
  apply preserves_with_world. intros w Hw.
  destruct (dict_mem x (store w)); [exact Hw|].
  revert w Hw. apply preserves_bind; [now apply key_live_insert|]. intros _.
  apply preserves_bind; [apply preserves_save, key_live_on_maps|].
  intros _. apply preserves_check.
Qed.

Lemma key_live_read key v0 o t x now :
  (now <= t)%Z -> preserves (A:=value) (@key_live value key v0 o t) (read x now).
Proof.
  intros Hle. unfold read.
  apply preserves_bind; [now apply key_live_clean|]. intros _.
  apply preserves_with_world. intros w Hw.
  destruct (dict_get x (store w)); exact Hw.
Qed.

Lemma key_live_delete key v0 o t x now :
  x <> key -> (now <= t)%Z ->
  preserves (@key_live value key v0 o t) (delete x now).
Proof.
  intros Hne Hle. unfold delete.
  apply preserves_bind; [now apply key_live_clean|]. intros _.
  unfold delete_locked. apply preserves_with_world. intros w Hw.
  destruct (dict_mem x (store w)) eqn:Hm; [|exact Hw]. cbn [negb].
  revert w Hw Hm. intros w Hw _. revert w Hw.
  apply preserves_bind.
  { intros w Hw. unfold del_store, bind, get_world, dict_del.
    destruct (dict_mem x (store w)); [|exact Hw]. now apply key_live_remove. }
  intros _. apply preserves_bind;
    [|intros _; apply preserves_save, key_live_on_maps].
  apply preserves_with_world. intros w Hw.
  destruct (dict_mem x (ttl_store w)); [|exact Hw].
  unfold del_ttl_store, bind, get_world, dict_del.
  destruct (dict_mem x (ttl_store w)); [|exact Hw]. now apply key_live_remove.
Qed.

(** X15.  A key that is not expired comes through the calls on other keys
    untouched: after a [create] or a [delete] of another key, and after a
    [read] of any key, at instants at which it is not expired, it has the
    value and the expiry it had, whether the call returned or raised. *)
Theorem other_keys_untouched key v0 o t w :
  key_live key v0 o t w ->
  (forall x v ttl now, x <> key -> (now <= t)%Z ->
     key_live key v0 o t (snd (create x v ttl now w))) /\
  (forall x now, (now <= t)%Z -> key_live key v0 o t (snd (read x now w))) /\
  (forall x now, x <> key -> (now <= t)%Z ->
     key_live key v0 o t (snd (delete x now w))).
Proof.
  intros Hw. split; [|split].
  - intros x v ttl now Hne Hle. now apply key_live_create.
  - intros x now Hle. now apply key_live_read.
  - intros x now Hne Hle. now apply key_live_delete.
Qed.

(** A batch whose first key is live never returns. *)
Lemma batch_live_raises key v0 o v (rest : dict value) ttl now w :
  key_live key v0 o now w ->
  exists e, fst (batch_create ((key, v) :: rest) ttl now w) = Raise e.
Proof.
  intros Hw. unfold batch_create.
  destruct (100 <? length ((key, v) :: rest)); [now eexists|].
  unfold bind at 1.
  pose proof (@key_live_clean key v0 o now now (Z.le_refl now) w Hw) as Hw1.
  destruct (_clean_expired_keys now w) as [[[]|e] w1]; [|now eexists].
  cbn [snd] in Hw1. destruct Hw1 as [Hm _]. apply dict_mem_get_Some in Hm.
  unfold batch_locked. unfold bind at 1. cbn [for_each]. unfold bind at 1.
  rewrite batch_item_spec, Hm.
  destruct (32 <? String.length key); [now eexists|].
  destruct (16 * 1024 <? dumps_len v); now eexists.
Qed.

End Liveness.

(** ** The client script *)

Ltac run_script rew :=
  repeat (progress
    (cbv -[Z.ltb Z.add N.ltb N.mul Nat.ltb Nat.mul dumps_len getsize
           PyJson.ram PyJson.bengalore PyJson.hydrabad];
     rew)).

Section ClientFacts.

Import PyJson.
Local Open Scope string_scope.
Local Open Scope Z_scope.

Context {ser : Serializer json}.

(** X16.  A first run of the script (no file yet) runs to its end whatever
    the clock shows, provided the three values pass the size check and the
    two files whose size is checked are within the limit of 1 GiB.  It
    prints that [key1] was created; the value of [key1], or the KeyError if
    more than 10 seconds passed before the read; that [key1] was deleted, or
    the KeyError if it had expired by then; that the batch was created; the
    value of [key2], or the KeyError if more than 120 seconds passed; and
    the KeyError of [key4]. *)
Theorem main_first_run t1 t2 t3 t4 t5 t6 :
  (dumps_len ram <= 16 * 1024)%nat ->
  (dumps_len bengalore <= 16 * 1024)%nat ->
  (dumps_len hydrabad <= 16 * 1024)%nat ->
  Forall (fun c => (getsize c <= 1 * 1024 * 1024 * 1024)%N)
    (first_run_files t1 t4) ->
  fst (main None t1 t2 t3 t4 t5 t6) = Ok tt /\
  snd (snd (main None t1 t2 t3 t4 t5 t6)) = first_run_output t1 t2 t3 t4 t5.
Proof.
  intros Hram Hb Hh Hfiles.
  inversion Hfiles as [|? ? Hf1 Hf']; subst.
  inversion Hf' as [|? ? Hf2 _]; subst.
  clear Hfiles Hf'. apply N.ltb_ge in Hf1, Hf2.
  apply Nat.ltb_ge in Hram, Hb, Hh.
  assert ((32 <? 4)%nat = false) as E32 by reflexivity.
  assert ((100 <? 2)%nat = false) as E100 by reflexivity.
  unfold first_run_output.
  run_script ltac:(rewrite ?E32, ?E100, ?Hram, ?Hb, ?Hh, ?Hf1, ?Hf2).
  destruct (t1 + 10 <? t2) eqn:E2;
    run_script ltac:(rewrite ?E32, ?E100, ?Hram, ?Hb, ?Hh, ?Hf1, ?Hf2, ?E2).
  all: destruct (t1 + 10 <? t3) eqn:E3;
    run_script
      ltac:(rewrite ?E32, ?E100, ?Hram, ?Hb, ?Hh, ?Hf1, ?Hf2, ?E2, ?E3).
  all: destruct (t4 + 120 <? t5) eqn:E5;
    run_script
      ltac:(rewrite ?E32, ?E100, ?Hram, ?Hb, ?Hh, ?Hf1, ?Hf2, ?E2, ?E3, ?E5).
  all: destruct (t4 + 120 <? t6) eqn:E6;
    run_script
      ltac:(rewrite ?E32, ?E100, ?Hram, ?Hb, ?Hh, ?Hf1, ?Hf2, ?E2, ?E3, ?E5,
              ?E6).
  all: split; reflexivity.
Qed.

(** The state a statement of the script must keep for the batch to fail. *)
Lemma call_keeps {A} (c : M json A) (report : A -> line) v2 o t :
  preserves (key_live "key2" v2 o t) c ->
  (forall a, report a <> BatchCreated) ->
  forall st,
    key_live "key2" v2 o t (fst st) /\ ~ In BatchCreated (snd st) ->
    key_live "key2" v2 o t (fst (snd (call c report st))) /\
    ~ In BatchCreated (snd (snd (call c report st))).
Proof.
  intros Hc Hrep [w out] [Hw Hout]. unfold call. cbn [fst snd] in *.
  specialize (Hc w Hw).
  destruct (c w) as [[a|e] w']; cbn [fst snd] in *; split; auto.
  rewrite in_app_iff. intros [H|[H|[]]]; [auto|]. now apply (Hrep a).
Qed.

Lemma try_keeps (s : script) v2 o t :
  (forall st,
     key_live "key2" v2 o t (fst st) /\ ~ In BatchCreated (snd st) ->
     key_live "key2" v2 o t (fst (snd (s st))) /\
     ~ In BatchCreated (snd (snd (s st)))) ->
  forall st,
    key_live "key2" v2 o t (fst st) /\ ~ In BatchCreated (snd st) ->
    key_live "key2" v2 o t (fst (snd (try_KeyError s st))) /\
    ~ In BatchCreated (snd (snd (try_KeyError s st))).
Proof.
  intros Hs st Hst. specialize (Hs st Hst). unfold try_KeyError.
  destruct (s st) as [[[]|e] [w' out]]; cbn [fst snd] in *; [exact Hs|].
  destruct (is_KeyErrorb e); cbn [fst snd]; [|exact Hs].
  destruct Hs as [Hw Hout]. split; [exact Hw|].
  rewrite in_app_iff. intros [H|[H|[]]]; [auto|discriminate].
Qed.

Lemma then_crashes (s1 s2 : script) v2 o t :
  (forall st,
     key_live "key2" v2 o t (fst st) /\ ~ In BatchCreated (snd st) ->
     key_live "key2" v2 o t (fst (snd (s1 st))) /\
     ~ In BatchCreated (snd (snd (s1 st)))) ->
  (forall st,
     key_live "key2" v2 o t (fst st) /\ ~ In BatchCreated (snd st) ->
     crashed_before_batch (s2 st)) ->
  forall st,
    key_live "key2" v2 o t (fst st) /\ ~ In BatchCreated (snd st) ->
    crashed_before_batch (then_ s1 s2 st).
Proof.
  intros H1 H2 st Hst. specialize (H1 st Hst). unfold then_.
  destruct (s1 st) as [[[]|e] st']; cbn [fst snd] in H1.
  - now apply H2.
  - split; [now exists e | exact (proj2 H1)].
Qed.

(** X17.  The script cannot be run twice in a row: started on a file in
    which [key2] has a value and does not expire before the instant of the
    batch, with a clock that does not run backwards up to that instant, it
    stops on an exception that nothing catches, the line of the batch not
    printed. *)
Theorem main_rerun_crashes f w0 v2 o t1 t2 t3 t4 t5 t6 :
  __init__ f (1 * 1024 * 1024 * 1024)%N = (Ok tt, w0) ->
  key_live "key2" v2 o t4 w0 ->
  t1 <= t4 -> t2 <= t4 -> t3 <= t4 ->
  crashed_before_batch (main f t1 t2 t3 t4 t5 t6).
Proof.
  intros Hinit Hlive H1 H2 H3. unfold main. rewrite Hinit.
  assert ("key1" <> "key2") as Hne by discriminate.
  apply (@then_crashes _ _ v2 o t4).
  { apply call_keeps; [now apply key_live_create | discriminate]. }
  2:{ cbn [fst snd]. split; [exact Hlive | intros []]. }
  apply then_crashes.
  { apply try_keeps, call_keeps; [now apply key_live_read | discriminate]. }
  apply then_crashes.
  { apply try_keeps, call_keeps; [now apply key_live_delete | discriminate]. }
  intros [w out] [Hw Hout]. cbn [fst snd] in Hw, Hout.
  unfold then_, call. cbn [fst snd].
  destruct (batch_live_raises bengalore [("key3", hydrabad)] (Some 120) Hw)
    as [e He].
  destruct (batch_create _ _ t4 w) as [r w']. cbn [fst] in He. subst r.
  split; [now exists e | exact Hout].
Qed.

End ClientFacts.

(** ** Further runs on JSON documents *)

Section MoreRuns.

Import PyJson.
Local Open Scope string_scope.
Local Open Scope Z_scope.
#[local] Set Warnings "-abstract-large-number".

Lemma create_duplicate_rejected_witness :
  create "key1" JNull (Some 60) 3 with_key1 =
    (Raise KeyError_exists, swept 3 with_key1) /\
  fst (read "key1" 3 (snd (create "key1" JNull (Some 60) 3 with_key1))) = Ok ram.
Proof.
  apply (@create_duplicate_rejected json _ "key1" JNull ram (Some 60) 3 with_key1).
  - apply store_okb_sound. reflexivity.
  - vm_compute. lia.
  - vm_compute. lia.
  - reflexivity.
  - reflexivity.
Defined.

Lemma missing_key_not_found_witness :
  read "key4" 0 with_key1 = (Raise KeyError_not_found, swept 0 with_key1) /\
  delete "key4" 0 with_key1 = (Raise KeyError_not_found, swept 0 with_key1).
Proof.
  apply (@missing_key_not_found json "key4" 0 with_key1).
  - apply store_okb_sound. reflexivity.
  - left. reflexivity.
Defined.

Lemma delete_removes_entry_witness :
  exists w',
    delete "key1" 12 with_ttl5 = (Ok tt, w') /\
    dict_get "key1" (store w') = None /\
    dict_get "key1" (ttl_store w') = None.
Proof.
  destruct (@delete_removes_entry json "key1" ram 12 with_ttl5)
    as (w' & Hd & Hs & Ht & _).
  - apply store_okb_sound. reflexivity.
  - reflexivity.
  - reflexivity.
  - exists w'. auto.
Defined.

Lemma create_free_key_witness :
  exists r w',
    create "old" JNull (Some 60) 10 stale = (r, w') /\
    (r = Ok tt \/ r = Raise MemoryError_file_size) /\
    entry_applied (Some 60) 10 "old" JNull w'.
Proof.
  destruct (@create_free_key json _ "old" JNull (Some 60) 10 stale)
    as (r & w' & Hc & Hr & Ha & _).
  - apply store_okb_sound. reflexivity.
  - vm_compute. lia.
  - vm_compute. lia.
  - reflexivity.
  - right. reflexivity.
  - exists r, w'. auto.
Defined.

Lemma sweep_exact_witness :
  exists w',
    _clean_expired_keys 10 stale = (Ok tt, w') /\
    expired_keys 10 w' = [] /\ file_synced w'.
Proof.
  destruct (@sweep_exact json 10 stale) as (w' & Hc & _ & _ & He & Hf & _).
  - apply store_okb_sound. reflexivity.
  - exists w'. auto.
Defined.

Lemma sweep_missing_value_raises_witness :
  exists k' w',
    file w' = file orphan /\
    read "ghost" 10 orphan = (Raise (KeyError_del k'), w') /\
    create "ghost" ram None 10 orphan = (Raise (KeyError_del k'), w').
Proof.
  destruct (@sweep_missing_value_raises json _ 10 orphan "ghost")
    as (k' & w' & Hf & Hr & _ & Hc & _).
  - left. reflexivity.
  - intros [].
  - exists k', w'. split; [exact Hf|]. split; [apply Hr|].
    apply Hc; vm_compute; lia.
Defined.

Lemma read_no_interference_witness :
  fst (read "key1" 20 (snd (read "key4" 12 with_ttl5))) =
  fst (read "key1" 20 with_ttl5).
Proof.
  apply (@read_no_interference json "key1" "key4" 12 20 with_ttl5).
  - apply store_okb_sound. reflexivity.
  - lia.
Defined.

Lemma store_ok_preserved_witness :
  store_ok (snd (create "key2" ram (Some 5) 12 with_ttl5)) /\
  store_ok (snd (batch_create clashing (Some 120) 50 with_key1)).
Proof.
  destruct (@store_ok_preserved json _ with_ttl5
              (store_okb_sound with_ttl5 eq_refl)) as (Hc & _).
  destruct (@store_ok_preserved json _ with_key1
              (store_okb_sound with_key1 eq_refl)) as (_ & _ & _ & Hb).
  split; [exact (Hc "key2" ram (Some 5) 12) | exact (Hb clashing (Some 120) 50)].
Defined.

Lemma batch_create_readable_witness :
  fst (read "key2" 120 (snd (batch_create cities (Some 120) 0 fresh)))
  = Ok bengalore.
Proof.
  apply (@batch_create_readable json _ cities (Some 120) 0 fresh
           (snd (batch_create cities (Some 120) 0 fresh))).
  - apply store_okb_sound. reflexivity.
  - reflexivity.
  - left. reflexivity.
  - intros _. vm_compute. discriminate.
Defined.

Lemma batch_create_fresh_witness :
  exists r w',
    batch_create cities (Some 120) 0 with_key1 = (r, w') /\
    (r = Ok tt \/ r = Raise MemoryError_file_size) /\
    keys (store w') = (keys (store (swept 0 with_key1)) ++ keys cities)%list.
Proof.
  destruct (@batch_create_fresh json _ cities (Some 120) 0 with_key1)
    as (r & w' & Hb & Hr & Hk & _).
  - apply store_okb_sound. reflexivity.
  - vm_compute. lia.
  - constructor; [|constructor; [|constructor]]; split; vm_compute; lia.
  - reflexivity.
  - apply distinct_NoDup. reflexivity.
  - intros k [<-|[<-|[]]]; left; reflexivity.
  - exists r, w'. auto.
Defined.

Lemma size_limit_inclusive_witness :
  (Raise MemoryError_file_size = Ok tt <->
   (getsize (snapshot (snd (create "key1" ram None 0 tiny))) <=
    max_file_size (snd (create "key1" ram None 0 tiny)))%N) /\
  file (snd (create "key1" ram None 0 tiny)) =
    Some (snapshot (snd (create "key1" ram None 0 tiny))) /\
  max_file_size (snd (create "key1" ram None 0 tiny)) = max_file_size tiny.
Proof.
  apply (@size_limit_inclusive json _ "key1" ram None 0 tiny
           (Raise MemoryError_file_size)
           (snd (create "key1" ram None 0 tiny))).
  - reflexivity.
  - right. reflexivity.
Defined.

Lemma ttl_zero_is_permanent_witness :
  dict_get "key1" (ttl_store with_ttl0) = None /\
  forall now', fst (read "key1" now' with_ttl0) = Ok ram.
Proof.
  apply (proj2 (proj2 (@ttl_zero_is_permanent json _ "key1" ram 10 fresh))).
  - apply store_okb_sound. reflexivity.
  - reflexivity.
Defined.

Lemma restart_after_return_witness :
  fst (__init__ (file with_tuple) 4096%N) = Ok tt /\
  json_image (snd (__init__ (file with_tuple) 4096%N)) with_tuple.
Proof.
  destruct (@restart_after_return json _ fresh 4096%N) as (Hc & _).
  apply (Hc "k" (JTuple [JInt 1; JInt 2]) None 0 with_tuple). reflexivity.
Defined.

Lemma other_keys_untouched_witness :
  key_live "key1" ram (Some 15) 14
    (snd (create "key2" ram None 12 with_ttl5)) /\
  key_live "key1" ram (Some 15) 14 (snd (read "key4" 13 with_ttl5)) /\
  key_live "key1" ram (Some 15) 14 (snd (delete "key4" 14 with_ttl5)).
Proof.
  destruct (@other_keys_untouched json _ "key1" ram (Some 15) 14 with_ttl5)
    as (Hc & Hr & Hd).
  - split; [reflexivity|]. split; [reflexivity|]. intros e [= <-]. lia.
  - split; [apply Hc; [discriminate|lia]|].
    split; [apply Hr; lia | apply Hd; [discriminate|lia]].
Defined.

Lemma main_first_run_witness :
  fst (main None 0 1 2 3 4 5) = Ok tt /\
  snd (snd (main None 0 1 2 3 4 5)) = first_run_output 0 1 2 3 4.
Proof.
  apply (@main_first_run json_serializer 0 1 2 3 4 5).
  - vm_compute. lia.
  - vm_compute. lia.
  - vm_compute. lia.
  - constructor; [|constructor; [|constructor]];
      apply N.leb_le; vm_compute; reflexivity.
Defined.

Lemma main_rerun_crashes_witness :
  crashed_before_batch (main after_first_run 10 11 12 13 14 15).
Proof.
  apply (@main_rerun_crashes json_serializer after_first_run
           (snd (__init__ after_first_run (1 * 1024 * 1024 * 1024)%N))
           bengalore (Some 123) 10 11 12 13 14 15).
  - reflexivity.
  - split; [reflexivity|]. split; [reflexivity|]. intros e [= <-]. lia.
  - lia.
  - lia.
  - lia.
Defined.

End MoreRuns.
